(** * Spreadsheet import and cross-reference of weapon parts

    A shallow embedding of [tools/import_spreadsheet_parts.py] and
    [tools/cross_reference_parts.py]: the row-processing loops of the two CSV
    readers, the category tables, the catalog merge, the final sort and the
    removal of [part_type], and the per-prefix set differences of the
    cross-reference report.

    Conventions of the embedding:
    - a Python [str] is the list of its code points ([pystr]);
    - a Python [dict] is a finite map ([gmap]); a [set] is a [gset];
    - a Python exception is the [Raise] branch of [result]; [try]/[except]
      is a match on it;
    - file access, [csv.reader], [json.load]/[json.dump] and printing are not
      modelled: the readers start from the rows the CSV reader yields, the
      merge from the decoded catalog document. *)

From Stdlib Require Import ZArith Lia.
From stdpp Require Import gmap strings list pretty sorting.

Open Scope Z_scope.

(** ** Python text *)

Abbreviation pystr := (list N).

(** A source literal as Python text. *)
Definition py (x : string) : pystr :=
  Ascii.N_of_ascii <$> String.list_ascii_of_string x.

(** [str.isspace] for one character: the white space of the Unicode
    database (bidirectional type WS, B or S, or category Zs). *)
Definition isspace (c : N) : bool :=
  ((9 <=? c) && (c <=? 13) || (28 <=? c) && (c <=? 32)
   || (c =? 133) || (c =? 160) || (c =? 5760)
   || (8192 <=? c) && (c <=? 8202)
   || (c =? 8232) || (c =? 8233) || (c =? 8239) || (c =? 8287)
   || (c =? 12288))%N.

Fixpoint lstrip (x : pystr) : pystr :=
  match x with
  | c :: x' => if isspace c then lstrip x' else x
  | [] => []
  end.

Definition rstrip (x : pystr) : pystr := reverse (lstrip (reverse x)).

(** [x.strip()] *)
Definition strip (x : pystr) : pystr := rstrip (lstrip x).

(** [x.startswith(pre)] for one prefix. *)
Fixpoint startswith1 (x pre : pystr) {struct pre} : bool :=
  match pre with
  | [] => true
  | c :: pre' =>
    match x with
    | d :: x' => bool_decide (c = d) && startswith1 x' pre'
    | [] => false
    end
  end.

(** [x.startswith(pres)] for a tuple of prefixes. *)
Definition startswith (x : pystr) (pres : list pystr) : bool :=
  existsb (startswith1 x) pres.

(** ['.' in x] *)
Definition dot : N := 46%N.
Definition contains (c : N) (x : pystr) : bool := bool_decide (c ∈ x).

(** [x.split('.')[0]]: the text before the first ['.'] (all of [x] when it
    has none). *)
Fixpoint before_dot (x : pystr) : pystr :=
  match x with
  | c :: x' => if bool_decide (c = dot) then [] else c :: before_dot x'
  | [] => []
  end.

(** [f"{n}"] for an integer. *)
Definition str_of_int (n : Z) : pystr := py (pretty n).

(** ** Exceptions *)

Inductive exn := IndexError | ValueError | KeyError | TypeError.

Inductive result (A : Type) :=
  | Ok (a : A)
  | Raise (e : exn).
Arguments Ok {A} a.
Arguments Raise {A} e.

#[export] Instance result_ret : MRet result := @Ok.
#[export] Instance result_bind : MBind result := λ A B f r,
  match r with Ok a => f a | Raise e => Raise e end.
#[export] Instance result_fmap : FMap result := λ A B f r,
  match r with Ok a => Ok (f a) | Raise e => Raise e end.

(** [for x in l: acc = f(acc, x)], stopping at the first exception. *)
Fixpoint for_each {A S : Type} (f : S → A → result S) (l : list A) (s : S)
  : result S :=
  match l with
  | [] => Ok s
  | x :: l' => s' ← f s x; for_each f l' s'
  end.

(** [[f(x) for x in l]], stopping at the first exception. *)
Fixpoint map_each {A B : Type} (f : A → result B) (l : list A)
  : result (list B) :=
  match l with
  | [] => Ok []
  | x :: l' => y ← f x; ys ← map_each f l'; Ok (y :: ys)
  end.

(** [row[i]] on a list, for [i >= 0]. *)
Definition getitem {A : Type} (l : list A) (i : nat) : result A :=
  match l !! i with
  | Some x => Ok x
  | None => Raise IndexError
  end.

(** [d[k]] on a dict. *)
Definition dict_getitem `{Countable K} {V : Type} (d : gmap K V) (k : K)
  : result V :=
  match d !! k with
  | Some v => Ok v
  | None => Raise KeyError
  end.

(** ** Values and records *)

(** The values a part record holds: JSON integers and JSON strings, the two
    types of the catalog schema ([category] and [index] are integers,
    [name], [group] and [part_type] are strings).  Other JSON values
    (floats, booleans, null, arrays, objects) are outside the model; on
    integers and strings Python's [==] is equality of values. *)
Inductive value :=
  | VInt (z : Z)
  | VStr (x : pystr).

#[export] Instance value_eq_dec : EqDecision value.
Proof. solve_decision. Defined.

#[export] Instance value_countable : Countable value.
Proof.
  refine (inj_countable'
    (λ v, match v with VInt z => inl z | VStr x => inr x end)
    (λ s, match s with inl z => VInt z | inr x => VStr x end) _).
  by intros [].
Defined.

(** A part record is a dict from field names to values. *)
Abbreviation part := (gmap pystr value).

Definition k_category : pystr := Eval vm_compute in py "category".
Definition k_index : pystr := Eval vm_compute in py "index".
Definition k_name : pystr := Eval vm_compute in py "name".
Definition k_group : pystr := Eval vm_compute in py "group".
Definition k_part_type : pystr := Eval vm_compute in py "part_type".

(** ** The category tables *)

(** The items of the dict literal [CATEGORY_MAP], in source order. *)
Definition CATEGORY_MAP_items : list ((pystr * pystr) * Z) :=
  Eval vm_compute in
  [ (* Pistols (2-7) *)
    ((py "Daedalus", py "Pistol"), 2);
    ((py "Jakobs", py "Pistol"), 3);
    ((py "Tediore", py "Pistol"), 4);
    ((py "Torgue", py "Pistol"), 5);
    ((py "Order", py "Pistol"), 6);
    ((py "Vladof", py "Pistol"), 7);
    (* Shotguns (8-12, 19) *)
    ((py "Daedalus", py "Shotgun"), 8);
    ((py "Jakobs", py "Shotgun"), 9);
    ((py "Tediore", py "Shotgun"), 10);
    ((py "Torgue", py "Shotgun"), 11);
    ((py "Bor", py "Shotgun"), 12);
    ((py "Ripper", py "Shotgun"), 12);
    ((py "Maliwan", py "Shotgun"), 19);
    (* Assault Rifles (13-18) *)
    ((py "Daedalus", py "Assault Rifle"), 13);
    ((py "Jakobs", py "Assault Rifle"), 14);
    ((py "Tediore", py "Assault Rifle"), 15);
    ((py "Torgue", py "Assault Rifle"), 16);
    ((py "Vladof", py "Assault Rifle"), 17);
    ((py "Order", py "Assault Rifle"), 18);
    (* SMGs (20-24) *)
    ((py "Daedalus", py "SMG"), 20);
    ((py "Bor", py "SMG"), 21);
    ((py "Ripper", py "SMG"), 21);
    ((py "Vladof", py "SMG"), 22);
    ((py "Maliwan", py "SMG"), 23);
    (* Snipers (25-29) *)
    ((py "Bor", py "Sniper"), 25);
    ((py "Ripper", py "Sniper"), 25);
    ((py "Jakobs", py "Sniper"), 26);
    ((py "Vladof", py "Sniper"), 27);
    ((py "Order", py "Sniper"), 28);
    ((py "Maliwan", py "Sniper"), 29);
    (* Heavy Weapons (244-247) *)
    ((py "Vladof", py "Heavy"), 244);
    ((py "Torgue", py "Heavy"), 245);
    ((py "Bor", py "Heavy"), 246);
    ((py "Ripper", py "Heavy"), 246);
    ((py "Maliwan", py "Heavy"), 247) ].

Definition CATEGORY_MAP : gmap (pystr * pystr) Z :=
  list_to_map CATEGORY_MAP_items.

Definition CATEGORY_NAMES_items : list (Z * pystr) :=
  Eval vm_compute in
  [ (2, py "Daedalus Pistol");
    (3, py "Jakobs Pistol");
    (4, py "Tediore Pistol");
    (5, py "Torgue Pistol");
    (6, py "Order Pistol");
    (7, py "Vladof Pistol");
    (8, py "Daedalus Shotgun");
    (9, py "Jakobs Shotgun");
    (10, py "Tediore Shotgun");
    (11, py "Torgue Shotgun");
    (12, py "Bor Shotgun");
    (13, py "Daedalus Assault Rifle");
    (14, py "Jakobs Assault Rifle");
    (15, py "Tediore Assault Rifle");
    (16, py "Torgue Assault Rifle");
    (17, py "Vladof Assault Rifle");
    (18, py "Order Assault Rifle");
    (19, py "Maliwan Shotgun");
    (20, py "Daedalus SMG");
    (21, py "Bor SMG");
    (22, py "Vladof SMG");
    (23, py "Maliwan SMG");
    (25, py "Bor Sniper");
    (26, py "Jakobs Sniper");
    (27, py "Vladof Sniper");
    (28, py "Order Sniper");
    (29, py "Maliwan Sniper");
    (244, py "Vladof Heavy");
    (245, py "Torgue Heavy");
    (246, py "Bor Heavy");
    (247, py "Maliwan Heavy") ].

Definition CATEGORY_NAMES : gmap Z pystr :=
  list_to_map CATEGORY_NAMES_items.

(** The tuple of prefixes a part string must start with in
    [parse_spreadsheet]. *)
Definition PART_PREFIXES : list pystr :=
  Eval vm_compute in
  [ py "DAD_"; py "JAK_"; py "TED_"; py "TOR_"; py "ORD_"; py "VLA_";
    py "MAL_"; py "BOR_"; py "RIP_"; py "COV_"; py "ATL_" ].

Definition s_Manufacturer : pystr := Eval vm_compute in py "Manufacturer".

(** ** The row-processing loops *)

(** What one pass through a loop body does to the reader's variables. *)
Inductive outcome (A : Type) :=
  | Continue                       (* nothing is recorded *)
  | Header (row : list pystr)      (* [header = row] *)
  | Emit (a : A)                   (* a record is appended *)
  | Skipped (msg : pystr).         (* [skipped.append(msg)] *)
Arguments Continue {A}.
Arguments Header {A} row.
Arguments Emit {A} a.
Arguments Skipped {A} msg.

(** The variables of a reader: [header], the records so far, [skipped]. *)
Record reader (Acc : Type) := Reader {
  header : option (list pystr);
  records : Acc;
  skipped : list pystr
}.
Arguments Reader {Acc} header records skipped.
Arguments header {Acc} r.
Arguments records {Acc} r.
Arguments skipped {Acc} r.

Section Loop.
Context {A Acc : Type}.
Variable body : option (list pystr) → list pystr → result (outcome A).
Variable add : Acc → A → Acc.

Definition record_outcome (st : reader Acc) (o : outcome A) : reader Acc :=
  match o with
  | Continue => st
  | Header row => Reader (Some row) (records st) (skipped st)
  | Emit a => Reader (header st) (add (records st) a) (skipped st)
  | Skipped msg => Reader (header st) (records st) (skipped st ++ [msg])
  end.

(** [for row in reader: body] *)
Definition read_rows (rows : list (list pystr)) (st : reader Acc)
  : result (reader Acc) :=
  for_each (λ st row, o ← body (header st) row; Ok (record_outcome st o))
           rows st.
End Loop.

(** A record of [load_spreadsheet_parts]. *)
Record ss_part := SsPart {
  ss_id : Z;
  ss_manufacturer : pystr;
  ss_weapon_type : pystr;
  ss_part_type : pystr;
  ss_name : pystr
}.

(** The dict literal [parse_spreadsheet] appends. *)
Definition new_part (category part_id : Z) (part_string group part_type : pystr)
  : part :=
  list_to_map
    [ (k_category, VInt category);
      (k_index, VInt part_id);
      (k_name, VStr part_string);
      (k_group, VStr group);
      (k_part_type, VStr part_type) ].

Section Readers.
(** [int(x)] on text is the interpreter's: [None] stands for its
    [ValueError]. *)
Variable py_int : pystr → option Z.

Definition int_of (x : pystr) : result Z :=
  match py_int x with
  | Some z => Ok z
  | None => Raise ValueError
  end.

(** The loop body of [parse_spreadsheet]. *)
Definition parse_row (header : option (list pystr)) (row : list pystr)
  : result (outcome part) :=
  if bool_decide (row = []) then Ok Continue else
  r0 ← getitem row 0;
  if bool_decide (r0 = []) then Ok Continue else
  r0 ← getitem row 0;
  if bool_decide (r0 = s_Manufacturer) then Ok (Header row) else
  if bool_decide (header = None) then Ok Continue else
  if bool_decide (length row < 5)%nat then Ok Continue else
  manufacturer ← strip <$> getitem row 0;
  weapon_type ← strip <$> getitem row 1;
  if bool_decide (manufacturer = [])
     || bool_decide (manufacturer = s_Manufacturer) then Ok Continue else
  match r2 ← getitem row 2; int_of (strip r2) with
  | Raise ValueError | Raise IndexError => Ok Continue
  | Raise e => Raise e
  | Ok part_id =>
    part_type ← (if bool_decide (3 < length row)%nat
                 then strip <$> getitem row 3 else Ok []);
    part_string ← (if bool_decide (4 < length row)%nat
                   then strip <$> getitem row 4 else Ok []);
    if bool_decide (part_string = [])
       || negb (startswith part_string PART_PREFIXES) then Ok Continue else
    let key := (manufacturer, weapon_type) in
    if bool_decide (CATEGORY_MAP !! key = None) then
      Ok (Skipped (manufacturer ++ py " " ++ weapon_type ++ py ": "
                   ++ part_string))
    else
    category ← dict_getitem CATEGORY_MAP key;
    let group := default (py "Category " ++ str_of_int category)
                         (CATEGORY_NAMES !! category) in
    Ok (Emit (new_part category part_id part_string group part_type))
  end.

(** [parse_spreadsheet], from the rows of the CSV reader on. *)
Definition parse_spreadsheet_state (rows : list (list pystr))
  : result (reader (list part)) :=
  read_rows parse_row (λ parts p, parts ++ [p]) rows (Reader None [] []).

Definition parse_spreadsheet (rows : list (list pystr))
  : result (list part) :=
  records <$> parse_spreadsheet_state rows.

(** The loop body of [load_spreadsheet_parts]. *)
Definition load_row (header : option (list pystr)) (row : list pystr)
  : result (outcome (pystr * ss_part)) :=
  if bool_decide (row = []) then Ok Continue else
  r0 ← getitem row 0;
  if bool_decide (r0 = []) then Ok Continue else
  r0 ← getitem row 0;
  if bool_decide (r0 = s_Manufacturer) then Ok (Header row) else
  if bool_decide (header = None) || bool_decide (length row < 5)%nat
  then Ok Continue else
  manufacturer ← strip <$> getitem row 0;
  weapon_type ← strip <$> getitem row 1;
  match r2 ← getitem row 2; int_of (strip r2) with
  | Raise ValueError => Ok Continue
  | Raise e => Raise e
  | Ok part_id =>
    part_type ← (if bool_decide (3 < length row)%nat
                 then strip <$> getitem row 3 else Ok []);
    part_string ← (if bool_decide (4 < length row)%nat
                   then strip <$> getitem row 4 else Ok []);
    if bool_decide (part_string = [])
       || negb (contains dot part_string) then Ok Continue else
    let prefix := before_dot part_string in
    Ok (Emit (prefix,
              SsPart part_id manufacturer weapon_type part_type part_string))
  end.

(** [parts_by_prefix[prefix].append(r)] on a [defaultdict(list)]. *)
Definition append_by_prefix (m : gmap pystr (list ss_part))
  (a : pystr * ss_part) : gmap pystr (list ss_part) :=
  <[a.1 := default [] (m !! a.1) ++ [a.2]]> m.

(** [load_spreadsheet_parts], from the rows of the CSV reader on. *)
Definition load_spreadsheet_parts (rows : list (list pystr))
  : result (gmap pystr (list ss_part)) :=
  records <$> read_rows load_row append_by_prefix rows (Reader None ∅ []).
End Readers.

(** ** The catalog merge *)

(** The decoded catalog document, as far as the merge reads it: the value of
    its ["parts"] entry when it has one. *)
Record catalog := Catalog { cat_parts : option (list part) }.

(** [merge_with_existing]: [existing_path] is [None] when the file does not
    exist, and the decoded document otherwise. *)
Definition merge_with_existing (new_parts : list part)
  (existing_path : option catalog) : result (list part) :=
  match existing_path with
  | None => Ok new_parts
  | Some existing =>
    cats ← map_each (λ p, dict_getitem p k_category) new_parts;
    let new_categories : gset value := list_to_set cats in
    for_each (λ merged p,
                c ← dict_getitem p k_category;
                if bool_decide (c ∉ new_categories)
                then Ok (merged ++ [p]) else Ok merged)
             (default [] (cat_parts existing)) new_parts
  end.

(** The parts the merge reads from the existing catalog: none when the
    file is absent or the document has no ["parts"] entry. *)
Definition existing_parts (existing_path : option catalog) : list part :=
  match existing_path with
  | Some existing => default [] (cat_parts existing)
  | None => []
  end.

(** The category ids present in a list of parts. *)
Definition categories_of (parts : list part) : gset value :=
  list_to_set (omap (λ p, p !! k_category) parts).

(** An existing part is kept when its category is none of [new_categories]. *)
Definition kept_by (new_categories : gset value) (p : part) : Prop :=
  ∃ c, p !! k_category = Some c ∧ c ∉ new_categories.

#[export] Instance kept_by_dec new_categories p :
  Decision (kept_by new_categories p).
Proof.
  unfold kept_by. destruct (p !! k_category) as [c|].
  - destruct (decide (c ∉ new_categories)).
    + left. by exists c.
    + right. by intros (? & [= <-] & ?).
  - right. by intros (? & [=] & ?).
Defined.

(** The [(category, index, name)] triples of a list of parts. *)
Definition triple (p : part) : option value * option value * option value :=
  (p !! k_category, p !! k_index, p !! k_name).

Definition triples (parts : list part)
  : gset (option value * option value * option value) :=
  list_to_set (triple <$> parts).

(** ** Sorting and the output document *)

(** [lambda p: (p["category"], p["index"])] *)
Definition sort_key (p : part) : result (value * value) :=
  c ← dict_getitem p k_category;
  i ← dict_getitem p k_index;
  Ok (c, i).

(** Keys are compared as tuples.  The model covers the keys of the catalog
    schema, pairs of integers; for any other key it answers [TypeError],
    which is what comparing an integer with text raises (whether Python's
    sort reaches such a comparison depends on the pairs it compares). *)
Definition int_key (k : value * value) : result (Z * Z) :=
  match k with
  | (VInt c, VInt i) => Ok (c, i)
  | _ => Raise TypeError
  end.

(** [a < b] on tuples of two integers. *)
Definition key_lt (a b : Z * Z) : bool :=
  (a.1 <? b.1) || (a.1 =? b.1) && (a.2 <? b.2).

(** [list.sort] is stable: an element goes before the first element that is
    not smaller than it, and elements are inserted from the right. *)
Fixpoint insert_by_key {A : Type} (x : (Z * Z) * A) (l : list ((Z * Z) * A))
  : list ((Z * Z) * A) :=
  match l with
  | [] => [x]
  | y :: l' => if key_lt y.1 x.1 then y :: insert_by_key x l' else x :: l
  end.

Definition stable_sort {A : Type} (l : list ((Z * Z) * A))
  : list ((Z * Z) * A) :=
  foldr insert_by_key [] l.

(** [parts.sort(key=lambda p: (p["category"], p["index"]))] *)
Definition sort_parts (parts : list part) : result (list part) :=
  keys ← map_each sort_key parts;
  ikeys ← map_each int_key keys;
  Ok ((stable_sort (zip ikeys parts)).*2).

(** [if "part_type" in p: del p["part_type"]] *)
Definition del_part_type (p : part) : part :=
  if bool_decide (is_Some (p !! k_part_type)) then delete k_part_type p
  else p.

(** The lexicographic order on [(category, index)]. *)
Definition lex_le (a b : Z * Z) : Prop :=
  a.1 < b.1 ∨ a.1 = b.1 ∧ a.2 ≤ b.2.

(** The order of keyed elements. *)
Definition by_key {A : Type} (x y : (Z * Z) * A) : Prop := lex_le x.1 y.1.

(** [k] is the integer sort key of [p]. *)
Definition key_of (p : part) (k : Z * Z) : Prop :=
  p !! k_category = Some (VInt k.1) ∧ p !! k_index = Some (VInt k.2).

(** [p] may stand before [q] in a sorted catalog. *)
Definition ordered (p q : part) : Prop :=
  ∃ a b, key_of p a ∧ key_of q b ∧ lex_le a b.

(** The document [main] hands to [json.dump]. *)
Record output := Output {
  version : Z;
  source : pystr;
  note : pystr;
  out_parts : list part
}.

Definition OUTPUT_SOURCE : pystr :=
  py "Community Spreadsheet (weapons) + memory extraction (other)".

Definition OUTPUT_NOTE : pystr :=
  py "Weapon indices from spreadsheet - requires in-game verification".

Section Main.
Variable py_int : pystr → option Z.

(** [main] up to and including the sort: [rows] are the rows of the CSV
    file, [existing_path] the existing catalog when its file exists. *)
Definition main_sorted (rows : list (list pystr))
  (existing_path : option catalog) : result (list part) :=
  parts ← parse_spreadsheet py_int rows;
  parts ← (match existing_path with
           | Some _ => merge_with_existing parts existing_path
           | None => Ok parts
           end);
  sort_parts parts.

(** [main], from the rows to the document it writes. *)
Definition main (rows : list (list pystr)) (existing_path : option catalog)
  : result output :=
  parts ← main_sorted rows existing_path;
  let parts := del_part_type <$> parts in
  Ok (Output 2 OUTPUT_SOURCE OUTPUT_NOTE parts).
End Main.

(** ** The cross-reference report *)

(** [a <= b] on text, by code points. *)
Fixpoint str_le (a b : pystr) : bool :=
  match a, b with
  | [], _ => true
  | _ :: _, [] => false
  | c :: a', d :: b' => (c <? d)%N || (c =? d)%N && str_le a' b'
  end.

Definition str_le_rel (a b : pystr) : Prop := str_le a b = true.

#[export] Instance str_le_rel_dec : RelDecision str_le_rel.
Proof. intros a b. unfold str_le_rel. apply _. Defined.

(** [sorted(xs)] for a set of texts. *)
Definition sorted (xs : gset pystr) : list pystr :=
  merge_sort str_le_rel (elements xs).

(** The three sets the report computes for one prefix. *)
Record coverage := Coverage {
  matched : gset pystr;
  missing : gset pystr;
  extra : gset pystr
}.

Record totals := Totals {
  total_matched : nat;
  total_missing : nat;
  total_extra : nat
}.

Section Report.
Variable spreadsheet_parts : gmap pystr (list ss_part).
Variable our_parts : gmap pystr (list pystr).

(** [{p['name'] for p in spreadsheet_parts[prefix]}] *)
Definition ss_parts_of (prefix : pystr) : result (gset pystr) :=
  l ← dict_getitem spreadsheet_parts prefix;
  Ok (list_to_set (ss_name <$> l)).

(** [set(our_parts[prefix])] *)
Definition our_part_set_of (prefix : pystr) : result (gset pystr) :=
  l ← dict_getitem our_parts prefix;
  Ok (list_to_set l).

(** The body of the per-prefix loop of [analyze_patterns], up to the
    three sets. *)
Definition compare_prefix (prefix : pystr) : result coverage :=
  ss_parts ← ss_parts_of prefix;
  our_part_set ← our_part_set_of prefix;
  Ok (Coverage (ss_parts ∩ our_part_set)
               (ss_parts ∖ our_part_set)
               (our_part_set ∖ ss_parts)).

Definition common : gset pystr := dom spreadsheet_parts ∩ dom our_parts.

(** The per-prefix loop of [analyze_patterns]: the coverage of every
    common prefix, in the order visited, and the three totals. *)
Definition analyze_patterns : result (list (pystr * coverage) * totals) :=
  for_each (λ acc prefix,
              c ← compare_prefix prefix;
              Ok (acc.1 ++ [(prefix, c)],
                  Totals (total_matched acc.2 + size (matched c))
                         (total_missing acc.2 + size (missing c))
                         (total_extra acc.2 + size (extra c))))
           (sorted common) ([], Totals 0 0 0).
End Report.

(** ** Reading the file text *)

(** [x.replace(old, new)] for a non-empty [old]: occurrences are taken from
    the left and do not overlap.  [skip] counts the characters of a matched
    [old] still to pass over. *)
Fixpoint replace_from (old new : pystr) (skip : nat) (x : pystr) : pystr :=
  match x with
  | [] => []
  | c :: x' =>
    match skip with
    | S k => replace_from old new k x'
    | O =>
      if startswith1 x old
      then new ++ replace_from old new (length old - 1) x'
      else c :: replace_from old new 0 x'
    end
  end.

Definition replace (old new x : pystr) : pystr := replace_from old new 0 x.

(** [x.split(sep)] for a separator of one character. *)
Fixpoint split_on (sep : N) (x : pystr) : list pystr :=
  match x with
  | [] => [[]]
  | c :: x' =>
    if bool_decide (c = sep) then [] :: split_on sep x'
    else match split_on sep x' with
         | l :: ls => (c :: l) :: ls
         | [] => [[c]]
         end
  end.

Definition LF : N := 10%N.
Definition CR : N := 13%N.
Definition NBSP : N := 160%N.
Definition SPACE : N := 32%N.

(** [content.replace('\r\n', '\n').replace('\xa0', ' ')] *)
Definition normalize (content : pystr) : pystr :=
  replace [NBSP] [SPACE] (replace [CR; LF] [LF] content).

(** The lines both tools hand to [csv.reader]. *)
Definition content_lines (content : pystr) : list pystr :=
  split_on LF (normalize content).

(** ** What a row contributes once the header has been seen *)

Section Contribution.
Variable py_int : pystr → option Z.

(** The record [parse_spreadsheet] appends for [row], if any. *)
Definition emitted (row : list pystr) : option part :=
  match parse_row py_int (Some []) row with
  | Ok (Emit p) => Some p
  | _ => None
  end.

(** The entry [parse_spreadsheet] appends to [skipped] for [row], if any. *)
Definition skipped_by (row : list pystr) : option pystr :=
  match parse_row py_int (Some []) row with
  | Ok (Skipped msg) => Some msg
  | _ => None
  end.
End Contribution.

(** ** The diagnostics of [parse_spreadsheet] *)

(** The lines [parse_spreadsheet] prints to [sys.stderr] after its loop. *)
Definition skipped_report (skipped : list pystr) : list pystr :=
  if bool_decide (skipped = []) then []
  else
    (py "Skipped " ++ str_of_int (Z.of_nat (length skipped))
       ++ py " parts with unknown categories:")
    :: ((λ s, py "  " ++ s) <$> take 10 skipped)
    ++ (if bool_decide (10 < length skipped)%nat
        then [py "  ... and "
                ++ str_of_int (Z.of_nat (length skipped) - 10)
                ++ py " more"]
        else []).

(** ** The statistics of [main] *)

(** [categories[cat] = categories.get(cat, 0) + 1] for every part. *)
Definition category_counts (parts : list part) : result (gmap value nat) :=
  for_each (λ categories p,
              cat ← dict_getitem p k_category;
              Ok (<[cat := (default 0 (categories !! cat) + 1)%nat]> categories))
           parts ∅.

(** ** The rest of the cross-reference report *)

Section ReportRest.
Variable spreadsheet_parts : gmap pystr (list ss_part).
Variable our_parts : gmap pystr (list pystr).

Definition spreadsheet_only : gset pystr :=
  dom spreadsheet_parts ∖ dom our_parts.

Definition our_only : gset pystr :=
  dom our_parts ∖ dom spreadsheet_parts.

(** [{p['name']: p['id'] for p in l}]: a later record replaces an earlier
    one of the same name. *)
Definition ss_indexed_of (l : list ss_part) : gmap pystr Z :=
  foldl (λ m p, <[ss_name p := ss_id p]> m) ∅ l.

(** The rows of the index table of one prefix: position in our list, the
    spreadsheet's index for that name ([None] is printed as ['?']), and the
    name; at most ten of them. *)
Definition index_rows (prefix : pystr)
  : result (list (nat * option Z * pystr)) :=
  l ← dict_getitem spreadsheet_parts prefix;
  let ss_indexed := ss_indexed_of l in
  our_list ← dict_getitem our_parts prefix;
  Ok (imap (λ i part, (i, ss_indexed !! part, part)) (take 10 our_list)).

End ReportRest.

(** ** A decimal reader for examples *)

(** [int(x)] on short ASCII text without surrounding white space: an
    optional sign, then decimal digits, single underscores allowed between
    digits.  The theorems below hold for every [py_int]; this instance
    evaluates them on concrete rows. *)
Definition digit (c : N) : option Z :=
  if ((48 <=? c) && (c <=? 57))%N then Some (Z.of_N (c - 48)) else None.

Fixpoint digits (acc : Z) (after_digit : bool) (x : pystr) : option Z :=
  match x with
  | [] => if after_digit then Some acc else None
  | c :: x' =>
    if (c =? 95)%N then
      if after_digit then digits acc false x' else None
    else
      match digit c with
      | Some d => digits (10 * acc + d) true x'
      | None => None
      end
  end.

Definition int_ascii (x : pystr) : option Z :=
  match x with
  | 43%N :: x' => digits 0 false x'
  | 45%N :: x' => Z.opp <$> digits 0 false x'
  | _ => digits 0 false x
  end.

(** ** Sample inputs *)

Definition row_header : list pystr :=
  [py "Manufacturer"; py "Weapon Type"; py "ID"; py "Part Type"; py "String"].

Definition row_jakobs : list pystr :=
  [py "Jakobs"; py "Pistol"; py "5"; py "Barrel"; py "JAK_Barrel_01.json"].

(** A part string with a manufacturer prefix and no ['.']. *)
Definition row_no_dot : list pystr :=
  [py "Bor"; py "Shotgun"; py " 7 "; py "Barrel"; py "BOR_SG"].

(** A part string with a ['.'] and no manufacturer prefix. *)
Definition row_no_prefix : list pystr :=
  [py "Jakobs"; py "Pistol"; py "6"; py "Barrel"; py "Barrel_01.json"].

(** A third cell that is not an integer. *)
Definition row_abc : list pystr :=
  [py "Jakobs"; py "Pistol"; py "abc"; py "Barrel"; py "JAK_Barrel_01.json"].

Definition part_jakobs : part :=
  new_part 3 5 (py "JAK_Barrel_01.json") (py "Jakobs Pistol") (py "Barrel").

Definition part_no_dot : part :=
  new_part 12 7 (py "BOR_SG") (py "Bor Shotgun") (py "Barrel").

(** A part of an existing catalog: no [part_type]. *)
Definition old_part (category index : Z) (name group : pystr) : part :=
  list_to_map
    [ (k_category, VInt category);
      (k_index, VInt index);
      (k_name, VStr name);
      (k_group, VStr group) ].

(** An existing catalog with categories 3 and 4. *)
Definition catalog_3_4 : catalog :=
  Catalog (Some [ old_part 4 2 (py "TED_Grip.x") (py "Tediore Pistol");
                  old_part 3 1 (py "JAK_Old.y") (py "Jakobs Pistol") ]).

(** A run of [main]: two accepted rows out of order, one rejected row, and
    a catalog that shares category 3 with the new parts. *)
Definition sample_rows : list (list pystr) :=
  [row_header; row_no_dot; row_abc; row_jakobs].

Definition sample_output : output :=
  Output 2 OUTPUT_SOURCE OUTPUT_NOTE
    [ old_part 3 5 (py "JAK_Barrel_01.json") (py "Jakobs Pistol");
      old_part 4 2 (py "TED_Grip.x") (py "Tediore Pistol");
      old_part 12 7 (py "BOR_SG") (py "Bor Shotgun") ].

(** The two groupings of a cross-reference: the spreadsheet has [JAK_A] and
    [JAK_B] under [JAK], the local dump [JAK_A] and [JAK_C]. *)
Definition sample_spreadsheet_parts : gmap pystr (list ss_part) :=
  {[ py "JAK" :=
       [ SsPart 1 (py "Jakobs") (py "Pistol") (py "Barrel") (py "JAK_A");
         SsPart 2 (py "Jakobs") (py "Pistol") (py "Grip") (py "JAK_B") ] ]}.

Definition sample_our_parts : gmap pystr (list pystr) :=
  {[ py "JAK" := [py "JAK_A"; py "JAK_C"] ]}.

(** A manufacturer the table does not know. *)
Definition row_unknown : list pystr :=
  [py "Foo"; py "Shotgun"; py "8"; py "Barrel"; py "BOR_SG.x"].

(** The cells after the manufacturer of a shotgun row. *)
Definition shotgun_cells : list pystr :=
  [py "Shotgun"; py " 7 "; py "Barrel"; py "BOR_SG"].

#[export] Instance key_of_dec (p : part) (a : Z * Z) : Decision (key_of p a).
Proof. unfold key_of. apply _. Defined.


(** A grouping in which the spreadsheet lists [JAK_A] twice. *)
Definition sample_repeated_parts : gmap pystr (list ss_part) :=
  {[ py "JAK" :=
       [ SsPart 1 (py "Jakobs") (py "Pistol") (py "Barrel") (py "JAK_A");
         SsPart 2 (py "Jakobs") (py "Pistol") (py "Grip") (py "JAK_B");
         SsPart 7 (py "Jakobs") (py "Pistol") (py "Barrel") (py "JAK_A") ] ]}.

(** A row whose manufacturer cell holds only a space. *)
Definition row_blank_manufacturer : list pystr :=
  [py " "; py "Pistol"; py "5"; py "Barrel"; py "JAK_PS.part_barrel_01"].

(** * Properties *)

(** ** Text *)

Lemma startswith1_prefix (x pre : pystr) :
  startswith1 x pre = true ↔ pre `prefix_of` x.
Proof.
  revert x. induction pre as [|c pre IH]; intros x; simpl.
  - split; [intros _; apply prefix_nil | done].
  - destruct x as [|d x].
    + split; [done | intros H; by apply prefix_nil_not in H].
    + rewrite andb_true_iff, bool_decide_eq_true, IH. split.
      * intros [-> H]. by apply prefix_cons.
      * intros H. split; [by apply prefix_cons_inv_1 in H|].
        by apply prefix_cons_inv_2 in H.
Qed.

Lemma startswith_prefix (x : pystr) (pres : list pystr) :
  startswith x pres = true ↔ ∃ pre, pre ∈ pres ∧ pre `prefix_of` x.
Proof.
  unfold startswith. rewrite existsb_exists. split.
  - intros (pre & Hin & H). exists pre.
    by rewrite list_elem_of_In, <- startswith1_prefix.
  - intros (pre & Hin & H). exists pre.
    by rewrite <- list_elem_of_In, startswith1_prefix.
Qed.

Lemma contains_elem_of (c : N) (x : pystr) : contains c x = true ↔ c ∈ x.
Proof. unfold contains. apply bool_decide_eq_true. Qed.

(** ** The monad and the loops *)

Lemma bind_Ok {A B : Type} (r : result A) (f : A → result B) (b : B) :
  r ≫= f = Ok b ↔ ∃ a, r = Ok a ∧ f a = Ok b.
Proof.
  destruct r as [a|e]; simpl.
  - split; [eauto | by intros (? & [= <-] & ?)].
  - split; [done | by intros (? & ? & ?)].
Qed.

Lemma fmap_Ok {A B : Type} (r : result A) (f : A → B) (b : B) :
  f <$> r = Ok b ↔ ∃ a, r = Ok a ∧ b = f a.
Proof.
  destruct r as [a|e]; simpl.
  - split; [intros [= <-]; eauto | by intros (? & [= <-] & ->)].
  - split; [done | by intros (? & ? & ?)].
Qed.

Lemma getitem_Ok {A : Type} (l : list A) (i : nat) (x : A) :
  getitem l i = Ok x ↔ l !! i = Some x.
Proof. unfold getitem. destruct (l !! i); naive_solver. Qed.

Lemma dict_getitem_Ok `{Countable K} {V : Type} (d : gmap K V) k v :
  dict_getitem d k = Ok v ↔ d !! k = Some v.
Proof. unfold dict_getitem. destruct (d !! k); naive_solver. Qed.

Lemma map_each_Ok {A B : Type} (f : A → result B) (l : list A) (ys : list B) :
  map_each f l = Ok ys ↔ Forall2 (λ x y, f x = Ok y) l ys.
Proof.
  revert ys. induction l as [|x l IH]; intros ys; simpl.
  - split; [intros [= <-]; constructor | by inversion 1].
  - split.
    + intros (y & Hy & (ys' & Hys & [= <-])%bind_Ok)%bind_Ok.
      constructor; [done | by apply IH].
    + inversion 1 as [|? y ? ys' Hy Hys]; subst.
      rewrite Hy. simpl. apply IH in Hys. by rewrite Hys.
Qed.

Lemma map_each_total {A B : Type} (f : A → result B) (l : list A) :
  Forall (λ x, ∃ y, f x = Ok y) l → ∃ ys, map_each f l = Ok ys.
Proof.
  induction 1 as [|x l [y Hy] _ [ys Hys]]; simpl; [by eexists|].
  rewrite Hy. simpl. rewrite Hys. by eexists.
Qed.

Section LoopFacts.
Context {A Acc : Type}.
Variable body : option (list pystr) → list pystr → result (outcome A).
Variable add : Acc → A → Acc.

(** A body that never raises makes the loop return. *)
Lemma read_rows_total :
  (∀ h row, ∃ o, body h row = Ok o) →
  ∀ rows st, ∃ st', read_rows body add rows st = Ok st'.
Proof.
  intros Hbody rows. unfold read_rows.
  induction rows as [|row rows IH]; intros st; simpl; [by eexists|].
  destruct (Hbody (header st) row) as [o ->]. simpl. apply IH.
Qed.
End LoopFacts.

(** Every record of the import loop was emitted by the body on some row. *)
Lemma read_rows_append_elem {A : Type}
  (body : option (list pystr) → list pystr → result (outcome A))
  (rows : list (list pystr)) (st st' : reader (list A)) (a : A) :
  read_rows body (λ l x, l ++ [x]) rows st = Ok st' →
  a ∈ records st' →
  a ∈ records st ∨ ∃ h row, row ∈ rows ∧ body h row = Ok (Emit a).
Proof.
  unfold read_rows. revert st.
  induction rows as [|row rows IH]; intros st; simpl.
  - intros [= <-]. by left.
  - intros (st1 & (o & Ho & [= <-])%bind_Ok & Hrest)%bind_Ok Ha.
    destruct (IH _ Hrest Ha) as [Hin | (h & r & Hr & Hb)].
    + destruct o as [| |b|]; simpl in Hin; try by left.
      apply elem_of_app in Hin as [Hin | ->%list_elem_of_singleton];
        [by left|].
      right. exists (header st), row. split; [left | done].
    + right. exists h, r. split; [by right | done].
Qed.

(** The records the import loop appends come from rows of its input, in
    the order of the rows, each from the row on which the body emitted it. *)
Lemma read_rows_append_rows {A : Type}
  (body : option (list pystr) → list pystr → result (outcome A))
  (rows : list (list pystr)) (st st' : reader (list A)) :
  read_rows body (λ l x, l ++ [x]) rows st = Ok st' →
  ∃ accepted new,
    records st' = records st ++ new ∧
    accepted `sublist_of` rows ∧
    Forall2 (λ row a, ∃ h, body h row = Ok (Emit a)) accepted new.
Proof.
  unfold read_rows. revert st.
  induction rows as [|row rows IH]; intros st; simpl.
  - intros [= <-]. exists [], []. rewrite app_nil_r.
    split_and!; [done | constructor | constructor].
  - intros (st1 & (o & Ho & [= <-])%bind_Ok & Hrest)%bind_Ok.
    destruct (IH _ Hrest) as (accepted & new & Hrec & Hsub & Hall).
    destruct o as [|hdr|a|msg]; simpl in Hrec.
    + exists accepted, new. split_and!; [done | by constructor | done].
    + exists accepted, new. split_and!; [done | by constructor | done].
    + exists (row :: accepted), (a :: new). rewrite <- app_assoc in Hrec.
      split_and!; [done | by constructor |].
      constructor; [by exists (header st) | done].
    + exists accepted, new. split_and!; [done | by constructor | done].
Qed.

(** The same for a loop that files its records by key: the records under
    one key come, in order, from the rows on which the body emitted a
    record for that key. *)
Lemma read_rows_group_rows
  (body : option (list pystr) → list pystr → result (outcome (pystr * ss_part)))
  (rows : list (list pystr)) (st st' : reader (gmap pystr (list ss_part)))
  (prefix : pystr) :
  read_rows body append_by_prefix rows st = Ok st' →
  ∃ accepted new,
    default [] (records st' !! prefix)
    = default [] (records st !! prefix) ++ new ∧
    accepted `sublist_of` rows ∧
    Forall2 (λ row r, ∃ h, body h row = Ok (Emit (prefix, r))) accepted new.
Proof.
  unfold read_rows. revert st.
  induction rows as [|row rows IH]; intros st; simpl.
  - intros [= <-]. exists [], []. rewrite app_nil_r.
    split_and!; [done | constructor | constructor].
  - intros (st1 & (o & Ho & [= <-])%bind_Ok & Hrest)%bind_Ok.
    destruct (IH _ Hrest) as (accepted & new & Hrec & Hsub & Hall).
    destruct o as [|hdr|[q r]|msg]; simpl in Hrec.
    + exists accepted, new. split_and!; [done | by constructor | done].
    + exists accepted, new. split_and!; [done | by constructor | done].
    + unfold append_by_prefix in Hrec. simpl in Hrec.
      destruct (decide (q = prefix)) as [->|Hq].
      * rewrite lookup_insert_eq in Hrec. simpl in Hrec.
        rewrite <- app_assoc in Hrec.
        exists (row :: accepted), (r :: new).
        split_and!; [done | by constructor |].
        constructor; [by exists (header st) | done].
      * rewrite lookup_insert_ne in Hrec by done.
        exists accepted, new. split_and!; [done | by constructor | done].
    + exists accepted, new. split_and!; [done | by constructor | done].
Qed.

(** ** The loop bodies *)

#[local] Arguments strip : simpl never.
#[local] Arguments startswith : simpl never.
#[local] Arguments contains : simpl never.
#[local] Arguments before_dot : simpl never.
#[local] Arguments str_of_int : simpl never.
#[local] Arguments py : simpl never.
#[local] Arguments CATEGORY_MAP : simpl never.
#[local] Arguments CATEGORY_NAMES : simpl never.
#[local] Arguments PART_PREFIXES : simpl never.
#[local] Arguments s_Manufacturer : simpl never.
#[local] Arguments new_part : simpl never.
#[local] Arguments k_category : simpl never.
#[local] Arguments k_index : simpl never.
#[local] Arguments k_name : simpl never.
#[local] Arguments k_group : simpl never.
#[local] Arguments k_part_type : simpl never.

Ltac row_cbn :=
  cbn [getitem lookup list_lookup mbind result_bind fmap result_fmap length
       orb andb negb].

Ltac row_case :=
  first
    [ case_bool_decide
    | match goal with
      | |- context [startswith ?a ?b] => destruct (startswith a b) eqn:?
      | |- context [contains ?a ?b] => destruct (contains a b) eqn:?
      | |- context [dict_getitem ?m ?k] =>
          unfold dict_getitem; destruct (m !! k) eqn:?
      | |- context [match ?f ?x with Some _ => _ | None => _ end] =>
          destruct (f x) eqn:?
      end ];
  row_cbn.

(** Closes a goal once the body has reached a result. *)
Ltac row_done :=
  match goal with
  | |- ∃ o, Ok _ = Ok o => by eexists
  | |- Ok Continue = Ok _ → _ => by intros [=]
  | |- Ok (Header _) = Ok _ → _ => by intros [=]
  | |- Ok (Skipped _) = Ok _ → _ => by intros [=]
  | |- Raise _ = Ok _ → _ => by intros [=]
  | H : (_ < _)%nat |- _ => cbn [length] in H; lia
  | H : ¬ (_ < _)%nat |- _ => cbn [length] in H; lia
  | H : _ :: _ = [] |- _ => discriminate H
  | H : ?a ≠ ?a |- _ => by destruct H
  | H : ?a = ?b, H' : ?a ≠ ?b |- _ => by destruct H'
  | H : Some _ = None |- _ => discriminate H
  | H : ?a = true, H' : ?a = false |- _ => congruence
  | H : ?a ≠ None, H' : ?a = None |- _ => by destruct H
  end.

Lemma Ok_Emit_inj {A : Type} (a b : A) :
  Ok (Emit a) = Ok (Emit b) → a = b.
Proof. by intros [=]. Qed.

Section ReaderFacts.
Variable py_int : pystr → option Z.

Lemma parse_row_total h row : ∃ o, parse_row py_int h row = Ok o.
Proof.
  unfold parse_row, int_of.
  destruct row as [|c0 [|c1 [|c2 [|c3 [|c4 rest]]]]]; row_cbn;
    repeat (try row_done; row_case); row_done.
Qed.

Lemma parse_row_Emit h row p :
  parse_row py_int h row = Ok (Emit p) ↔
  ∃ c0 c1 c2 c3 c4 rest part_id category,
    row = c0 :: c1 :: c2 :: c3 :: c4 :: rest ∧
    c0 ≠ [] ∧ c0 ≠ s_Manufacturer ∧ h ≠ None ∧
    strip c0 ≠ [] ∧ strip c0 ≠ s_Manufacturer ∧
    py_int (strip c2) = Some part_id ∧
    strip c4 ≠ [] ∧ startswith (strip c4) PART_PREFIXES = true ∧
    CATEGORY_MAP !! (strip c0, strip c1) = Some category ∧
    p = new_part category part_id (strip c4)
          (default (py "Category " ++ str_of_int category)
                   (CATEGORY_NAMES !! category))
          (strip c3).
Proof.
  split.
  - unfold parse_row, int_of.
    match goal with |- _ → ?G => set (Concl := G) end.
    destruct row as [|c0 [|c1 [|c2 [|c3 [|c4 rest]]]]]; row_cbn;
      repeat (try row_done; row_case); try row_done.
    match goal with
    | Hi : py_int _ = Some ?z, Hc : CATEGORY_MAP !! _ = Some ?c |- _ =>
        intros <-%Ok_Emit_inj; exists c0, c1, c2, c3, c4, rest, z, c
    end.
    split_and!; first [assumption | reflexivity].
  - intros (c0 & c1 & c2 & c3 & c4 & rest & part_id & category & -> & H0 & H0'
            & Hh & Hm & Hm' & Hint & Hs & Hpre & Hcat & ->).
    unfold parse_row, int_of, dict_getitem. row_cbn.
    rewrite Hint, Hcat. row_cbn.
    repeat (try row_done; row_case); try row_done. reflexivity.
Qed.

Lemma load_row_total h row : ∃ o, load_row py_int h row = Ok o.
Proof.
  unfold load_row, int_of.
  destruct row as [|c0 [|c1 [|c2 [|c3 [|c4 rest]]]]]; row_cbn;
    repeat (try row_done; row_case); row_done.
Qed.

Lemma load_row_Emit h row a :
  load_row py_int h row = Ok (Emit a) ↔
  ∃ c0 c1 c2 c3 c4 rest part_id,
    row = c0 :: c1 :: c2 :: c3 :: c4 :: rest ∧
    c0 ≠ [] ∧ c0 ≠ s_Manufacturer ∧ h ≠ None ∧
    py_int (strip c2) = Some part_id ∧
    strip c4 ≠ [] ∧ contains dot (strip c4) = true ∧
    a = (before_dot (strip c4),
         SsPart part_id (strip c0) (strip c1) (strip c3) (strip c4)).
Proof.
  split.
  - unfold load_row, int_of.
    match goal with |- _ → ?G => set (Concl := G) end.
    destruct row as [|c0 [|c1 [|c2 [|c3 [|c4 rest]]]]]; row_cbn;
      repeat (try row_done; row_case); try row_done.
    match goal with
    | Hi : py_int _ = Some ?z |- _ =>
        intros <-%Ok_Emit_inj; exists c0, c1, c2, c3, c4, rest, z
    end.
    split_and!; first [assumption | reflexivity].
  - intros (c0 & c1 & c2 & c3 & c4 & rest & part_id & -> & H0 & H0'
            & Hh & Hint & Hs & Hdot & ->).
    unfold load_row, int_of. row_cbn.
    rewrite Hint. row_cbn.
    repeat (try row_done; row_case); try row_done. reflexivity.
Qed.
End ReaderFacts.

Lemma new_part_lookup category part_id part_string group part_type :
  let p := new_part category part_id part_string group part_type in
  p !! k_category = Some (VInt category) ∧
  p !! k_index = Some (VInt part_id) ∧
  p !! k_name = Some (VStr part_string) ∧
  p !! k_group = Some (VStr group) ∧
  p !! k_part_type = Some (VStr part_type).
Proof. by vm_compute. Qed.

(** The records [parse_spreadsheet] returns were emitted by its loop body. *)
Lemma parse_spreadsheet_elem py_int rows parts p :
  parse_spreadsheet py_int rows = Ok parts → p ∈ parts →
  ∃ h row, row ∈ rows ∧ parse_row py_int h row = Ok (Emit p).
Proof.
  unfold parse_spreadsheet, parse_spreadsheet_state.
  intros (st & Hst & ->)%fmap_Ok Hp.
  destruct (read_rows_append_elem _ _ _ _ _ Hst Hp) as [Hin|?]; [|done].
  by apply elem_of_nil in Hin.
Qed.

(** ** The readers never raise *)

Lemma parse_spreadsheet_total (py_int : pystr → option Z)
  (rows : list (list pystr)) :
  ∃ parts, parse_spreadsheet py_int rows = Ok parts.
Proof.
  unfold parse_spreadsheet, parse_spreadsheet_state.
  destruct (read_rows_total (parse_row py_int) (λ parts p, parts ++ [p])
              (parse_row_total py_int) rows (Reader None [] []))
    as [st ->].
  by eexists.
Qed.

Lemma load_spreadsheet_parts_total (py_int : pystr → option Z)
  (rows : list (list pystr)) :
  ∃ by_prefix, load_spreadsheet_parts py_int rows = Ok by_prefix.
Proof.
  unfold load_spreadsheet_parts.
  destruct (read_rows_total (load_row py_int) append_by_prefix
              (load_row_total py_int) rows (Reader None ∅ []))
    as [st ->].
  by eexists.
Qed.

(** C10. For every sequence of rows, each an arbitrary list of arbitrary
    texts, and whatever [int] answers, the row loops of [parse_spreadsheet]
    and of [load_spreadsheet_parts] return: every [row[i]] is reached only
    behind its guard, and the [ValueError] of [int] is caught. *)
Theorem readers_total (py_int : pystr → option Z) (rows : list (list pystr)) :
  (∃ parts, parse_spreadsheet py_int rows = Ok parts) ∧
  (∃ by_prefix, load_spreadsheet_parts py_int rows = Ok by_prefix).
Proof.
  split.
  - apply parse_spreadsheet_total.
  - apply load_spreadsheet_parts_total.
Qed.

(** ** The part id *)

(** C7. The record the loop body of [parse_spreadsheet] makes from a row
    has as [index] the integer [int] gives for the trimmed third cell of
    that row, and the records [parse_spreadsheet] returns are, in order,
    the records of rows of its input, each with the index of its own row;
    the same holds for the [id] of the records of [load_spreadsheet_parts],
    per row and for the records filed under every prefix; and on a row
    whose trimmed third cell [int] rejects, both loop bodies return without
    a record. *)
Theorem part_id_is_int_of_third_cell (py_int : pystr → option Z) :
  (∀ h row p,
     parse_row py_int h row = Ok (Emit p) →
     ∃ c2 z, row !! 2%nat = Some c2 ∧
       py_int (strip c2) = Some z ∧ p !! k_index = Some (VInt z)) ∧
  (∀ rows parts,
     parse_spreadsheet py_int rows = Ok parts →
     ∃ accepted,
       accepted `sublist_of` rows ∧
       Forall2 (λ row p,
                  (∃ h, parse_row py_int h row = Ok (Emit p)) ∧
                  ∃ c2 z, row !! 2%nat = Some c2 ∧
                    py_int (strip c2) = Some z ∧
                    p !! k_index = Some (VInt z))
               accepted parts) ∧
  (∀ h row a,
     load_row py_int h row = Ok (Emit a) →
     ∃ c2, row !! 2%nat = Some c2 ∧ py_int (strip c2) = Some (ss_id a.2)) ∧
  (∀ rows by_prefix prefix l,
     load_spreadsheet_parts py_int rows = Ok by_prefix →
     by_prefix !! prefix = Some l →
     ∃ accepted,
       accepted `sublist_of` rows ∧
       Forall2 (λ row r,
                  (∃ h, load_row py_int h row = Ok (Emit (prefix, r))) ∧
                  ∃ c2, row !! 2%nat = Some c2 ∧
                    py_int (strip c2) = Some (ss_id r))
               accepted l) ∧
  (∀ h row,
     (∀ c2, row !! 2%nat = Some c2 → py_int (strip c2) = None) →
     (∃ o, parse_row py_int h row = Ok o ∧ ∀ p, o ≠ Emit p) ∧
     (∃ o, load_row py_int h row = Ok o ∧ ∀ a, o ≠ Emit a)).
Proof.
  assert (∀ h row p,
            parse_row py_int h row = Ok (Emit p) →
            ∃ c2 z, row !! 2%nat = Some c2 ∧
              py_int (strip c2) = Some z ∧ p !! k_index = Some (VInt z))
    as Hparse_row.
  { intros h row p He.
    apply parse_row_Emit in He
      as (c0 & c1 & c2 & c3 & c4 & rest & z & cat & -> & _ & _ & _ & _ & _
          & Hint & _ & _ & _ & ->).
    exists c2, z. split_and!; [done | done | apply new_part_lookup]. }
  assert (∀ h row a,
            load_row py_int h row = Ok (Emit a) →
            ∃ c2, row !! 2%nat = Some c2 ∧
              py_int (strip c2) = Some (ss_id a.2)) as Hload_row.
  { intros h row a He.
    apply load_row_Emit in He
      as (c0 & c1 & c2 & c3 & c4 & rest & z & -> & _ & _ & _ & Hint & _ & _
          & ->).
    by exists c2. }
  split_and!.
  - exact Hparse_row.
  - intros rows parts. unfold parse_spreadsheet, parse_spreadsheet_state.
    intros (st & Hst & ->)%fmap_Ok.
    apply read_rows_append_rows in Hst
      as (accepted & new & Hrec & Hsub & Hall).
    simpl in Hrec. rewrite Hrec. exists accepted. split; [done|].
    eapply Forall2_impl; [exact Hall|].
    intros row p [h He]. split; [by exists h | by apply (Hparse_row h)].
  - exact Hload_row.
  - intros rows by_prefix prefix l. unfold load_spreadsheet_parts.
    intros (st & Hst & ->)%fmap_Ok Hl.
    apply (read_rows_group_rows _ _ _ _ prefix) in Hst
      as (accepted & new & Hrec & Hsub & Hall).
    rewrite Hl in Hrec. simpl in Hrec. rewrite lookup_empty in Hrec.
    simpl in Hrec. subst l. exists accepted. split; [done|].
    eapply Forall2_impl; [exact Hall|].
    intros row r [h He]. split; [by exists h|].
    apply (Hload_row h row (prefix, r) He).
  - intros h row Hbad. split.
    + destruct (parse_row_total py_int h row) as [o Ho].
      exists o. split; [done|]. intros p ->.
      apply parse_row_Emit in Ho
        as (c0 & c1 & c2 & c3 & c4 & rest & z & cat & -> & _ & _ & _ & _ & _
            & Hint & _).
      specialize (Hbad c2 eq_refl). congruence.
    + destruct (load_row_total py_int h row) as [o Ho].
      exists o. split; [done|]. intros a ->.
      apply load_row_Emit in Ho
        as (c0 & c1 & c2 & c3 & c4 & rest & z & -> & _ & _ & _ & Hint & _).
      specialize (Hbad c2 eq_refl). congruence.
Qed.

Lemma part_id_is_int_of_third_cell_witness :
  (∃ accepted,
     accepted `sublist_of` [row_header; row_jakobs; row_abc; row_no_dot] ∧
     Forall2 (λ row p,
                (∃ h, parse_row int_ascii h row = Ok (Emit p)) ∧
                ∃ c2 z, row !! 2%nat = Some c2 ∧
                  int_ascii (strip c2) = Some z ∧
                  p !! k_index = Some (VInt z))
             accepted [part_jakobs; part_no_dot]) ∧
  (∃ o, parse_row int_ascii (Some row_header) row_abc = Ok o ∧
     ∀ p, o ≠ Emit p).
Proof.
  destruct (part_id_is_int_of_third_cell int_ascii)
    as (_ & Hlist & _ & _ & Hbad).
  split.
  - apply (Hlist [row_header; row_jakobs; row_abc; row_no_dot]).
    vm_compute. reflexivity.
  - apply (Hbad (Some row_header) row_abc).
    intros c2 [= <-]. vm_compute. reflexivity.
Defined.

(** ** The part name *)

(** The prefixes are the eleven tokens of the source tuple. *)
Lemma PART_PREFIXES_tokens :
  PART_PREFIXES =
  py <$> ["DAD_"; "JAK_"; "TED_"; "TOR_"; "ORD_"; "VLA_"; "MAL_"; "BOR_";
          "RIP_"; "COV_"; "ATL_"]%string.
Proof. reflexivity. Qed.

(** C1, as the code has it. A record of [parse_spreadsheet] comes from a row
    whose trimmed fifth cell is not empty and starts with one of the
    manufacturer prefixes, and that text is the record's [name]; a row whose
    trimmed fifth cell is empty or starts with none of them yields no
    record. [parse_spreadsheet] does not ask for a ['.'] in the name: that
    test belongs to [load_spreadsheet_parts], whose records have a name that
    is not empty and contains ['.']. *)
Theorem import_part_name (py_int : pystr → option Z) :
  (∀ rows parts p,
     parse_spreadsheet py_int rows = Ok parts → p ∈ parts →
     ∃ row c4, row ∈ rows ∧ row !! 4%nat = Some c4 ∧
       p !! k_name = Some (VStr (strip c4)) ∧ strip c4 ≠ [] ∧
       ∃ tok, tok ∈ PART_PREFIXES ∧ tok `prefix_of` strip c4) ∧
  (∀ h row,
     (∀ c4, row !! 4%nat = Some c4 →
        strip c4 = [] ∨
        ¬ ∃ tok, tok ∈ PART_PREFIXES ∧ tok `prefix_of` strip c4) →
     ∀ p, parse_row py_int h row ≠ Ok (Emit p)) ∧
  (∀ h row a,
     load_row py_int h row = Ok (Emit a) →
     ∃ c4, row !! 4%nat = Some c4 ∧ ss_name a.2 = strip c4 ∧
       strip c4 ≠ [] ∧ dot ∈ strip c4).
Proof.
  split_and!.
  - intros rows parts p Hparse Hp.
    destruct (parse_spreadsheet_elem _ _ _ _ Hparse Hp) as (h & row & Hrow & He).
    apply parse_row_Emit in He
      as (c0 & c1 & c2 & c3 & c4 & rest & z & cat & -> & _ & _ & _ & _ & _
          & _ & Hne & Hpre & _ & ->).
    exists (c0 :: c1 :: c2 :: c3 :: c4 :: rest), c4.
    split_and!; [done | done | apply new_part_lookup | done |].
    by apply startswith_prefix.
  - intros h row Hbad p He.
    apply parse_row_Emit in He
      as (c0 & c1 & c2 & c3 & c4 & rest & z & cat & -> & _ & _ & _ & _ & _
          & _ & Hne & Hpre & _).
    destruct (Hbad c4 eq_refl) as [Hempty | Hnone]; [done|].
    by apply Hnone, startswith_prefix.
  - intros h row a He.
    apply load_row_Emit in He
      as (c0 & c1 & c2 & c3 & c4 & rest & z & -> & _ & _ & _ & _ & Hne & Hdot
          & ->).
    exists c4. split_and!; [done | done | done |].
    by apply contains_elem_of.
Qed.

Lemma import_part_name_witness :
  (∃ row c4, row ∈ [row_header; row_jakobs] ∧ row !! 4%nat = Some c4 ∧
     part_jakobs !! k_name = Some (VStr (strip c4)) ∧ strip c4 ≠ [] ∧
     ∃ tok, tok ∈ PART_PREFIXES ∧ tok `prefix_of` strip c4) ∧
  (∀ p, parse_row int_ascii (Some row_header) row_no_prefix ≠ Ok (Emit p)).
Proof.
  destruct (import_part_name int_ascii) as (Hname & Hdrop & _).
  split.
  - apply (Hname [row_header; row_jakobs] [part_jakobs]).
    + vm_compute. reflexivity.
    + left.
  - apply (Hdrop (Some row_header) row_no_prefix).
    intros c4 [= <-]. right. intros (tok & Htok & Hpre).
    apply startswith1_prefix in Hpre.
    revert Hpre. unfold PART_PREFIXES in Htok.
    repeat (apply elem_of_cons in Htok as [-> | Htok]; [by vm_compute|]).
    by apply elem_of_nil in Htok.
Defined.

(** C1 as stated fails: after the header, [row_no_dot] yields a record
    although its trimmed part name contains no ['.']. *)
Lemma import_accepts_name_without_dot :
  parse_spreadsheet int_ascii [row_header; row_no_dot] = Ok [part_no_dot] ∧
  row_no_dot !! 4%nat = Some (py "BOR_SG") ∧
  part_no_dot !! k_name = Some (VStr (strip (py "BOR_SG"))) ∧
  dot ∉ strip (py "BOR_SG").
Proof.
  split_and!; try by vm_compute.
  vm_compute. intros H. repeat (apply elem_of_cons in H as [[=] | H]).
  by apply elem_of_nil in H.
Qed.

(** ** The merge *)

Lemma categories_of_elem (parts : list part) (c : value) :
  c ∈ categories_of parts ↔ ∃ q, q ∈ parts ∧ q !! k_category = Some c.
Proof.
  unfold categories_of. rewrite elem_of_list_to_set, list_elem_of_omap.
  naive_solver.
Qed.

Lemma map_each_category (parts : list part) (cats : list value) :
  map_each (λ p, dict_getitem p k_category) parts = Ok cats →
  cats = omap (λ p, p !! k_category) parts.
Proof.
  rewrite map_each_Ok. induction 1 as [|p c ps cs Hp _ IH]; [done|].
  apply dict_getitem_Ok in Hp. simpl. rewrite Hp. by f_equal.
Qed.

Lemma map_each_category_total (parts : list part) :
  Forall (λ p, is_Some (p !! k_category)) parts →
  ∃ cats, map_each (λ p, dict_getitem p k_category) parts = Ok cats.
Proof.
  intros H. apply map_each_total. eapply Forall_impl; [done|].
  intros p [c Hc]. exists c. by apply dict_getitem_Ok.
Qed.

(** The loop over the existing parts appends the kept ones, in order. *)
Lemma merge_loop (new_categories : gset value) (existing merged out : list part) :
  for_each (λ merged p,
              c ← dict_getitem p k_category;
              if bool_decide (c ∉ new_categories)
              then Ok (merged ++ [p]) else Ok merged) existing merged = Ok out ↔
  Forall (λ p, is_Some (p !! k_category)) existing ∧
  out = merged ++ filter (kept_by new_categories) existing.
Proof.
  revert merged. induction existing as [|p ps IH]; intros merged; simpl.
  - rewrite app_nil_r. split; [by intros [= <-] | by intros [_ ->]].
  - rewrite bind_Ok. split.
    + intros (m1 & (c & Hc%dict_getitem_Ok & Hm1)%bind_Ok & Hrest).
      apply IH in Hrest as [Hall ->]. split; [by constructor|].
      case_bool_decide; injection Hm1 as <-.
      * rewrite filter_cons_True by (by exists c). by rewrite <- app_assoc.
      * rewrite filter_cons_False; [done|].
        intros (c' & Hc' & Hnot). congruence.
    + intros [Hall ->]. apply Forall_cons in Hall as [[c Hc] Hall].
      unfold dict_getitem at 1. rewrite Hc. simpl. case_bool_decide.
      * exists (merged ++ [p]). split; [done|]. apply IH. split; [done|].
        rewrite filter_cons_True by (by exists c). by rewrite <- app_assoc.
      * exists merged. split; [done|]. apply IH. split; [done|].
        rewrite filter_cons_False; [done|].
        intros (c' & Hc' & Hnot). congruence.
Qed.

(** What [merge_with_existing] returns when the catalog file exists. *)
Lemma merge_with_existing_Some (new_parts : list part) (existing : catalog)
  (out : list part) :
  merge_with_existing new_parts (Some existing) = Ok out ↔
  Forall (λ p, is_Some (p !! k_category)) new_parts ∧
  Forall (λ p, is_Some (p !! k_category)) (default [] (cat_parts existing)) ∧
  out = new_parts ++ filter (kept_by (categories_of new_parts))
                            (default [] (cat_parts existing)).
Proof.
  unfold merge_with_existing. rewrite bind_Ok. split.
  - intros (cats & Hcats & Hloop).
    pose proof (map_each_category _ _ Hcats) as ->.
    apply merge_loop in Hloop as [Hex ->]. split_and!; [|done|done].
    apply map_each_Ok in Hcats. clear Hex.
    induction Hcats as [|p c ps cs Hp _ IH]; constructor; [|done].
    exists c. by apply dict_getitem_Ok.
  - intros (Hnew & Hex & ->).
    destruct (map_each_category_total _ Hnew) as [cats Hcats].
    exists cats. split; [done|].
    pose proof (map_each_category _ _ Hcats) as ->.
    by apply merge_loop.
Qed.

(** The merged list, with or without a catalog file. *)
Lemma merge_output_list (new_parts : list part)
  (existing_path : option catalog) (out : list part) :
  merge_with_existing new_parts existing_path = Ok out →
  out = new_parts ++ filter (kept_by (categories_of new_parts))
                            (existing_parts existing_path).
Proof.
  destruct existing_path as [existing|]; simpl.
  - by intros (_ & _ & ->)%merge_with_existing_Some.
  - intros [= <-]. by rewrite filter_nil, app_nil_r.
Qed.

(** C2. The output of [merge_with_existing] is the new parts followed by
    the existing parts it keeps; no kept part has a category that occurs in
    [new_parts], and every existing part whose category occurs in no new
    part is kept, as it is and in the order of the catalog. *)
Theorem merge_replaces_categories (new_parts : list part)
  (existing_path : option catalog) (out : list part) :
  merge_with_existing new_parts existing_path = Ok out →
  ∃ kept,
    out = new_parts ++ kept ∧
    kept = filter (kept_by (categories_of new_parts))
                  (existing_parts existing_path) ∧
    (∀ q c p, q ∈ new_parts → q !! k_category = Some c →
              p ∈ kept → p !! k_category ≠ Some c) ∧
    (∀ p, p ∈ existing_parts existing_path →
          (∀ q, q ∈ new_parts → q !! k_category ≠ p !! k_category) →
          p ∈ kept).
Proof.
  intros Hm.
  exists (filter (kept_by (categories_of new_parts))
                 (existing_parts existing_path)).
  destruct existing_path as [existing|]; simpl.
  - apply merge_with_existing_Some in Hm as (Hnew & Hex & ->).
    split_and!; [done | done | |].
    + intros q c p Hq Hc [(c' & Hc' & Hnot) _]%list_elem_of_filter Hpc.
      apply Hnot. apply categories_of_elem. exists q. split; [done|].
      congruence.
    + intros p Hp Hnone. apply list_elem_of_filter. split; [|done].
      rewrite Forall_forall in Hex. destruct (Hex p Hp) as [c Hc].
      exists c. split; [done|].
      intros (q & Hq & Hqc)%categories_of_elem.
      apply (Hnone q Hq). congruence.
  - injection Hm as <-. rewrite filter_nil, app_nil_r.
    split_and!; [done | done | |].
    + intros q c p _ _ Hp. by apply elem_of_nil in Hp.
    + intros p Hp. by apply elem_of_nil in Hp.
Qed.

Lemma merge_replaces_categories_witness :
  ∃ kept,
    [part_jakobs; old_part 4 2 (py "TED_Grip.x") (py "Tediore Pistol")]
      = [part_jakobs] ++ kept ∧
    kept = filter (kept_by (categories_of [part_jakobs]))
                  (existing_parts (Some catalog_3_4)) ∧
    (∀ q c p, q ∈ [part_jakobs] → q !! k_category = Some c →
              p ∈ kept → p !! k_category ≠ Some c) ∧
    (∀ p, p ∈ existing_parts (Some catalog_3_4) →
          (∀ q, q ∈ [part_jakobs] → q !! k_category ≠ p !! k_category) →
          p ∈ kept).
Proof.
  apply (merge_replaces_categories [part_jakobs] (Some catalog_3_4)).
  vm_compute. reflexivity.
Defined.

(** C9. Whatever the existing catalog holds, and also when there is none,
    the output of [merge_with_existing] starts with [new_parts]: every new
    part is in the output, unchanged and at its own position. *)
Theorem merge_keeps_new_parts (new_parts : list part)
  (existing_path : option catalog) (out : list part) :
  merge_with_existing new_parts existing_path = Ok out →
  new_parts `prefix_of` out ∧
  ∀ i p, new_parts !! i = Some p → out !! i = Some p.
Proof.
  intros Hm.
  assert (new_parts `prefix_of` out) as Hpre.
  { destruct existing_path as [existing|].
    - apply merge_with_existing_Some in Hm as (_ & _ & ->).
      by apply prefix_app_r.
    - by injection Hm as <-. }
  split; [done|]. intros i p Hp. by eapply prefix_lookup_Some.
Qed.

Lemma merge_keeps_new_parts_witness :
  [part_jakobs] `prefix_of`
    [part_jakobs; old_part 4 2 (py "TED_Grip.x") (py "Tediore Pistol")] ∧
  ∀ i p, [part_jakobs] !! i = Some p →
    [part_jakobs; old_part 4 2 (py "TED_Grip.x") (py "Tediore Pistol")] !! i
    = Some p.
Proof.
  apply (merge_keeps_new_parts [part_jakobs] (Some catalog_3_4)).
  vm_compute. reflexivity.
Defined.

Lemma filter_none {A : Type} (P : A → Prop) `{!∀ x, Decision (P x)}
  (l : list A) :
  (∀ x, x ∈ l → ¬ P x) → filter P l = [].
Proof.
  induction l as [|x l IH]; intros Hl; [done|].
  rewrite filter_cons_False by (apply Hl; left).
  apply IH. intros y Hy. apply Hl. by right.
Qed.

(** Merging the new parts again, with the first output as the existing
    catalog, returns the first output. *)
Lemma merge_again (new_parts : list part) (existing_path : option catalog)
  (merged : list part) :
  Forall (λ p, is_Some (p !! k_category)) new_parts →
  merge_with_existing new_parts existing_path = Ok merged →
  merge_with_existing new_parts (Some (Catalog (Some merged))) = Ok merged.
Proof.
  intros Hnew Hm. apply merge_with_existing_Some. simpl.
  assert (filter (kept_by (categories_of new_parts)) new_parts = []) as Hnil.
  { apply filter_none. intros p Hp (c & Hc & Hnot).
    apply Hnot, categories_of_elem. eauto. }
  destruct existing_path as [existing|].
  - apply merge_with_existing_Some in Hm as (_ & Hex & ->).
    split_and!; [done | |].
    + apply Forall_app. split; [done|].
      apply Forall_forall. intros p [_ Hp]%list_elem_of_filter.
      rewrite Forall_forall in Hex. by apply Hex.
    + rewrite filter_app, Hnil. simpl. f_equal.
      symmetry. by apply list_filter_filter_l.
  - injection Hm as <-. split_and!; [done | done |].
    by rewrite Hnil, app_nil_r.
Qed.

(** C3. For parts that carry a category, merging the new parts with the
    result of a first merge against the existing catalog succeeds and has
    the same set of [(category, index, name)] triples as the first merge. *)
Theorem merge_idempotent (new_parts : list part)
  (existing_path : option catalog) (merged : list part) :
  Forall (λ p, is_Some (p !! k_category)) new_parts →
  merge_with_existing new_parts existing_path = Ok merged →
  ∃ merged',
    merge_with_existing new_parts (Some (Catalog (Some merged))) = Ok merged' ∧
    triples merged' = triples merged.
Proof.
  intros Hnew Hm. exists merged. split; [|done]. by eapply merge_again.
Qed.

Lemma merge_idempotent_witness :
  ∃ merged',
    merge_with_existing [part_jakobs]
      (Some (Catalog (Some
         [part_jakobs; old_part 4 2 (py "TED_Grip.x") (py "Tediore Pistol")])))
    = Ok merged' ∧
    triples merged' =
    triples [part_jakobs; old_part 4 2 (py "TED_Grip.x") (py "Tediore Pistol")].
Proof.
  apply (merge_idempotent [part_jakobs] (Some catalog_3_4)).
  - apply Forall_singleton. exists (VInt 3). vm_compute. reflexivity.
  - vm_compute. reflexivity.
Defined.

(** ** The sort *)

Lemma key_lt_false (a b : Z * Z) : key_lt a b = false → lex_le b a.
Proof. unfold key_lt, lex_le. destruct a, b; simpl. lia. Qed.

Lemma key_lt_true (a b : Z * Z) : key_lt a b = true → lex_le a b.
Proof. unfold key_lt, lex_le. destruct a, b; simpl. lia. Qed.

Section StableSort.
Context {A : Type}.
Implicit Types (x : (Z * Z) * A) (l : list ((Z * Z) * A)).

Lemma insert_by_key_perm x l : insert_by_key x l ≡ₚ x :: l.
Proof.
  induction l as [|y l IH]; simpl; [done|].
  destruct (key_lt y.1 x.1); [|done].
  by rewrite IH, Permutation_swap.
Qed.

Lemma stable_sort_perm l : stable_sort l ≡ₚ l.
Proof.
  induction l as [|x l IH]; simpl; [done|].
  by rewrite insert_by_key_perm, IH.
Qed.

Lemma insert_by_key_HdRel x y l :
  lex_le y.1 x.1 → HdRel by_key y l → HdRel by_key y (insert_by_key x l).
Proof.
  intros Hyx Hhd. destruct l as [|z l]; simpl; [by constructor|].
  destruct (key_lt z.1 x.1); constructor; [|done].
  by inversion Hhd.
Qed.

Lemma insert_by_key_Sorted x l :
  Sorted by_key l → Sorted by_key (insert_by_key x l).
Proof.
  induction 1 as [|y l Hl IH Hhd]; simpl; [by repeat constructor|].
  destruct (key_lt y.1 x.1) eqn:Hlt.
  - constructor; [done|].
    apply insert_by_key_HdRel; [by apply key_lt_true | done].
  - constructor; [by constructor|].
    constructor. by apply key_lt_false.
Qed.

Lemma stable_sort_Sorted l : Sorted by_key (stable_sort l).
Proof.
  induction l as [|x l IH]; simpl; [constructor|].
  by apply insert_by_key_Sorted.
Qed.

Lemma Sorted_adjacent l i x y :
  Sorted by_key l → l !! i = Some x → l !! S i = Some y → lex_le x.1 y.1.
Proof.
  intros Hl. revert i. induction Hl as [|z l Hl IH Hhd]; intros i; [done|].
  destruct i as [|i]; simpl.
  - intros [= ->] Hy. destruct l as [|z' l]; [done|].
    injection Hy as ->. by inversion Hhd.
  - apply IH.
Qed.
End StableSort.

Lemma sort_key_Ok (p : part) (k : value * value) :
  sort_key p = Ok k ↔ p !! k_category = Some k.1 ∧ p !! k_index = Some k.2.
Proof.
  unfold sort_key. rewrite bind_Ok. setoid_rewrite bind_Ok.
  setoid_rewrite dict_getitem_Ok. destruct k as [c i]; simpl. split.
  - by intros (c' & Hc & i' & Hi & [= -> ->]).
  - intros [Hc Hi]. exists c. split; [done|]. by exists i.
Qed.

Lemma int_key_Ok (k : value * value) (a : Z * Z) :
  int_key k = Ok a ↔ k = (VInt a.1, VInt a.2).
Proof.
  destruct k as [[c|c] [i|i]], a as [a1 a2]; simpl; split;
    (intros [=]; by subst).
Qed.

(** What [sort_parts] returns, and when. *)
Lemma sort_parts_Ok (parts sorted : list part) :
  sort_parts parts = Ok sorted ↔
  ∃ ikeys, Forall2 key_of parts ikeys ∧
           sorted = (stable_sort (zip ikeys parts)).*2.
Proof.
  unfold sort_parts. rewrite bind_Ok. setoid_rewrite bind_Ok. split.
  - intros (keys & Hkeys%map_each_Ok & ikeys & Hikeys%map_each_Ok & [= <-]).
    exists ikeys. split; [|done].
    revert ikeys Hikeys.
    induction Hkeys as [|p k ps ks Hp _ IH]; intros ikeys Hikeys.
    + apply Forall2_nil_inv_l in Hikeys as ->. constructor.
    + apply Forall2_cons_inv_l in Hikeys as (a & ikeys' & Ha & Hrest & ->).
      constructor; [|by apply IH].
      apply sort_key_Ok in Hp. apply int_key_Ok in Ha. subst k.
      by unfold key_of.
  - intros (ikeys & Hkeys & ->).
    exists ((λ a : Z * Z, (VInt a.1, VInt a.2)) <$> ikeys). split.
    + apply map_each_Ok. induction Hkeys as [|p a ps ikeys' Hp _ IH];
        [constructor|].
      constructor; [|done]. by apply sort_key_Ok.
    + exists ikeys. split; [|done]. apply map_each_Ok.
      clear Hkeys. induction ikeys as [|a ikeys' IH]; constructor; [|done].
      by apply int_key_Ok.
Qed.

Lemma sort_parts_perm (parts sorted : list part) :
  sort_parts parts = Ok sorted → sorted ≡ₚ parts.
Proof.
  intros (ikeys & Hkeys & ->)%sort_parts_Ok.
  rewrite stable_sort_perm. rewrite snd_zip; [done|].
  apply Forall2_length in Hkeys. lia.
Qed.

Lemma sort_parts_sorted (parts sorted : list part) (i : nat) (p q : part) :
  sort_parts parts = Ok sorted →
  sorted !! i = Some p → sorted !! S i = Some q → ordered p q.
Proof.
  intros (ikeys & Hkeys & ->)%sort_parts_Ok.
  rewrite !list_lookup_fmap.
  destruct (stable_sort (zip ikeys parts) !! i) as [[a p']|] eqn:Hi; [|done].
  destruct (stable_sort (zip ikeys parts) !! S i) as [[b q']|] eqn:Hj; [|done].
  simpl. intros [= ->] [= ->].
  assert (Forall (λ kp, key_of kp.2 kp.1) (stable_sort (zip ikeys parts)))
    as Hall.
  { rewrite stable_sort_perm. clear Hi Hj.
    induction Hkeys; simpl; constructor; done. }
  rewrite Forall_forall in Hall.
  exists a, b. split_and!.
  - apply (Hall (a, p)). by eapply list_elem_of_lookup_2.
  - apply (Hall (b, q)). by eapply list_elem_of_lookup_2.
  - apply (Sorted_adjacent _ i (a, p) (b, q)
             (stable_sort_Sorted (zip ikeys parts)) Hi Hj).
Qed.

(** ** Removing [part_type] *)

Lemma del_part_type_part_type (p : part) : del_part_type p !! k_part_type = None.
Proof.
  unfold del_part_type. case_bool_decide as Hp.
  - apply lookup_delete_eq.
  - destruct (p !! k_part_type) eqn:E; [|done]. destruct Hp. by eexists.
Qed.

Lemma del_part_type_other (p : part) (k : pystr) :
  k ≠ k_part_type → del_part_type p !! k = p !! k.
Proof.
  intros Hk. unfold del_part_type. case_bool_decide; [|done].
  by apply lookup_delete_ne.
Qed.

Lemma del_part_type_key (p : part) (a : Z * Z) :
  key_of p a → key_of (del_part_type p) a.
Proof.
  intros [Hc Hi]. split; (rewrite del_part_type_other; [done|by vm_compute]).
Qed.

(** ** The output document *)

Section MainFacts.
Variable py_int : pystr → option Z.

Lemma main_Ok rows existing_path doc :
  main py_int rows existing_path = Ok doc ↔
  ∃ sorted, main_sorted py_int rows existing_path = Ok sorted ∧
    doc = Output 2 OUTPUT_SOURCE OUTPUT_NOTE (del_part_type <$> sorted).
Proof.
  unfold main. rewrite bind_Ok. split.
  - intros (sorted & Hs & [= <-]). by exists sorted.
  - intros (sorted & Hs & ->). by exists sorted.
Qed.

Lemma main_sorted_Ok rows existing_path sorted :
  main_sorted py_int rows existing_path = Ok sorted ↔
  ∃ parsed merged,
    parse_spreadsheet py_int rows = Ok parsed ∧
    merge_with_existing parsed existing_path = Ok merged ∧
    sort_parts merged = Ok sorted.
Proof.
  unfold main_sorted. split.
  - intros (parsed & Hparse & (merged & Hmerge & Hsort)%bind_Ok)%bind_Ok.
    exists parsed, merged. split_and!; [done | | done].
    destruct existing_path; exact Hmerge.
  - intros (parsed & merged & Hparse & Hmerge & Hsort).
    apply bind_Ok. exists parsed. split; [done|].
    apply bind_Ok. exists merged. split; [|done].
    destruct existing_path; exact Hmerge.
Qed.
End MainFacts.

(** The parts [parse_spreadsheet] returns have integer keys. *)
Lemma parse_spreadsheet_keys (py_int : pystr → option Z)
  (rows : list (list pystr)) (parts : list part) :
  parse_spreadsheet py_int rows = Ok parts →
  Forall (λ p, ∃ a, key_of p a) parts.
Proof.
  intros Hparse. apply Forall_forall. intros p Hp.
  destruct (parse_spreadsheet_elem _ _ _ _ Hparse Hp) as (h & row & _ & He).
  apply parse_row_Emit in He
    as (c0 & c1 & c2 & c3 & c4 & rest & z & cat & _ & _ & _ & _ & _ & _
        & _ & _ & _ & _ & ->).
  exists (cat, z). split; apply new_part_lookup.
Qed.

Lemma keys_Forall2 (parts : list part) :
  Forall (λ p, ∃ a, key_of p a) parts → ∃ ikeys, Forall2 key_of parts ikeys.
Proof.
  induction 1 as [|p ps [a Ha] _ [ikeys IH]].
  - exists []. constructor.
  - exists (a :: ikeys). by constructor.
Qed.

(** A run is valid when the parts of the existing catalog carry an integer
    [category] and an integer [index]: [main] then writes a document. *)
Lemma main_returns (py_int : pystr → option Z) (rows : list (list pystr))
  (existing_path : option catalog) :
  Forall (λ p, ∃ a, key_of p a) (existing_parts existing_path) →
  ∃ doc, main py_int rows existing_path = Ok doc.
Proof.
  intros Hex.
  destruct (parse_spreadsheet_total py_int rows) as [parsed Hparse].
  pose proof (parse_spreadsheet_keys _ _ _ Hparse) as Hkeys.
  set (merged := parsed ++ filter (kept_by (categories_of parsed))
                                  (existing_parts existing_path)).
  assert (Forall (λ p, ∃ a, key_of p a) merged) as Hmerged.
  { apply Forall_app. split; [done|].
    apply Forall_forall. intros p [_ Hp]%list_elem_of_filter.
    rewrite Forall_forall in Hex. by apply Hex. }
  assert (merge_with_existing parsed existing_path = Ok merged) as Hmerge.
  { destruct existing_path as [existing|]; subst merged; simpl.
    - apply merge_with_existing_Some. split_and!; [| |done].
      + eapply Forall_impl; [exact Hkeys|]. intros p [a [Hc _]]. by eexists.
      + eapply Forall_impl; [exact Hex|]. intros p [a [Hc _]]. by eexists.
    - by rewrite filter_nil, app_nil_r. }
  destruct (keys_Forall2 _ Hmerged) as [ikeys Hikeys].
  eexists. apply main_Ok. eexists. split; [|done].
  apply main_sorted_Ok. exists parsed, merged. split_and!; [done | done |].
  apply sort_parts_Ok. by exists ikeys.
Qed.

(** C4. In every run of [main] that writes a document, the [parts] of the
    document are in non-decreasing [(category, index)] order: of two
    adjacent parts, the first has the smaller category, or the same category
    and an index that is not larger. *)
Theorem main_output_sorted (py_int : pystr → option Z)
  (rows : list (list pystr)) (existing_path : option catalog) (doc : output) :
  main py_int rows existing_path = Ok doc →
  ∀ i p q, out_parts doc !! i = Some p → out_parts doc !! S i = Some q →
    ∃ c1 i1 c2 i2,
      p !! k_category = Some (VInt c1) ∧ p !! k_index = Some (VInt i1) ∧
      q !! k_category = Some (VInt c2) ∧ q !! k_index = Some (VInt i2) ∧
      (c1 < c2 ∨ c1 = c2 ∧ i1 ≤ i2).
Proof.
  intros (sorted & (parsed & merged & _ & _ & Hsort)%main_sorted_Ok & ->)%main_Ok
         i p q.
  simpl. rewrite !list_lookup_fmap.
  destruct (sorted !! i) as [p0|] eqn:Hi; [|done].
  destruct (sorted !! S i) as [q0|] eqn:Hj; [|done].
  simpl. intros [= <-] [= <-].
  destruct (sort_parts_sorted _ _ _ _ _ Hsort Hi Hj)
    as ([c1 i1] & [c2 i2] & Hp & Hq & Hle).
  apply del_part_type_key in Hp as [Hpc Hpi].
  apply del_part_type_key in Hq as [Hqc Hqi].
  by exists c1, i1, c2, i2.
Qed.

Lemma main_output_sorted_witness :
  main int_ascii sample_rows (Some catalog_3_4) = Ok sample_output ∧
  ∀ i p q, out_parts sample_output !! i = Some p →
    out_parts sample_output !! S i = Some q →
    ∃ c1 i1 c2 i2,
      p !! k_category = Some (VInt c1) ∧ p !! k_index = Some (VInt i1) ∧
      q !! k_category = Some (VInt c2) ∧ q !! k_index = Some (VInt i2) ∧
      (c1 < c2 ∨ c1 = c2 ∧ i1 ≤ i2).
Proof.
  assert (main int_ascii sample_rows (Some catalog_3_4) = Ok sample_output)
    as Hrun by (vm_compute; reflexivity).
  split; [exact Hrun|].
  exact (main_output_sorted int_ascii sample_rows (Some catalog_3_4)
           sample_output Hrun).
Defined.

(** C8. In the document [main] writes no part has a [part_type] field; the
    parts are, position by position, the sorted merged parts with every
    other field as it was; and this holds for the parts carried over from
    the existing catalog as for the new ones. *)
Theorem part_type_stripped (py_int : pystr → option Z)
  (rows : list (list pystr)) (existing_path : option catalog) (doc : output) :
  main py_int rows existing_path = Ok doc →
  ∃ parsed sorted,
    parse_spreadsheet py_int rows = Ok parsed ∧
    main_sorted py_int rows existing_path = Ok sorted ∧
    length (out_parts doc) = length sorted ∧
    (∀ p', p' ∈ out_parts doc → p' !! k_part_type = None) ∧
    (∀ i p, sorted !! i = Some p →
       ∃ p', out_parts doc !! i = Some p' ∧
             ∀ k, k ≠ k_part_type → p' !! k = p !! k) ∧
    (∀ p, p ∈ parsed ++ filter (kept_by (categories_of parsed))
                               (existing_parts existing_path) →
       ∃ p', p' ∈ out_parts doc ∧ p' !! k_part_type = None ∧
             ∀ k, k ≠ k_part_type → p' !! k = p !! k).
Proof.
  intros (sorted & Hsorted & ->)%main_Ok.
  pose proof Hsorted as (parsed & merged & Hparse & Hmerge & Hsort)%main_sorted_Ok.
  exists parsed, sorted. simpl.
  split_and!; [done | done | by rewrite length_fmap | | |].
  - intros p' (p & -> & _)%list_elem_of_fmap. apply del_part_type_part_type.
  - intros i p Hi. exists (del_part_type p). split.
    + by rewrite list_lookup_fmap, Hi.
    + intros k Hk. by apply del_part_type_other.
  - intros p Hp. exists (del_part_type p). split_and!.
    + apply list_elem_of_fmap. exists p. split; [done|].
      rewrite (sort_parts_perm _ _ Hsort).
      by rewrite (merge_output_list _ _ _ Hmerge).
    + apply del_part_type_part_type.
    + intros k Hk. by apply del_part_type_other.
Qed.

Lemma part_type_stripped_witness :
  ∃ parsed sorted,
    parse_spreadsheet int_ascii sample_rows = Ok parsed ∧
    main_sorted int_ascii sample_rows (Some catalog_3_4) = Ok sorted ∧
    length (out_parts sample_output) = length sorted ∧
    (∀ p', p' ∈ out_parts sample_output → p' !! k_part_type = None) ∧
    (∀ i p, sorted !! i = Some p →
       ∃ p', out_parts sample_output !! i = Some p' ∧
             ∀ k, k ≠ k_part_type → p' !! k = p !! k) ∧
    (∀ p, p ∈ parsed ++ filter (kept_by (categories_of parsed))
                               (existing_parts (Some catalog_3_4)) →
       ∃ p', p' ∈ out_parts sample_output ∧ p' !! k_part_type = None ∧
             ∀ k, k ≠ k_part_type → p' !! k = p !! k).
Proof.
  apply (part_type_stripped int_ascii sample_rows (Some catalog_3_4)
           sample_output).
  vm_compute. reflexivity.
Defined.

(** ** The cross-reference counts *)

Lemma size_split (X Y : gset pystr) :
  (size (X ∩ Y) + size (X ∖ Y) = size X)%nat.
Proof.
  rewrite <- size_union.
  - f_equal. apply set_eq. intros x.
    rewrite elem_of_union, elem_of_intersection, elem_of_difference.
    destruct (decide (x ∈ Y)); tauto.
  - intros x [_ Hin]%elem_of_intersection [_ Hout]%elem_of_difference.
    by apply Hout.
Qed.

Section ReportFacts.
Variable spreadsheet_parts : gmap pystr (list ss_part).
Variable our_parts : gmap pystr (list pystr).

Lemma compare_prefix_common prefix :
  prefix ∈ common spreadsheet_parts our_parts →
  ∃ c, compare_prefix spreadsheet_parts our_parts prefix = Ok c.
Proof.
  unfold common. rewrite elem_of_intersection, !elem_of_dom.
  intros [[l Hl] [l' Hl']].
  unfold compare_prefix, ss_parts_of, our_part_set_of, dict_getitem.
  rewrite Hl, Hl'. by eexists.
Qed.

(** The per-prefix loop returns, and reports every prefix it visits. *)
Lemma analyze_loop (prefixes : list pystr)
  (acc : list (pystr * coverage) * totals) :
  (∀ x, x ∈ prefixes →
     ∃ c, compare_prefix spreadsheet_parts our_parts x = Ok c) →
  ∃ report,
    for_each (λ acc prefix,
                c ← compare_prefix spreadsheet_parts our_parts prefix;
                Ok (acc.1 ++ [(prefix, c)],
                    Totals (total_matched acc.2 + size (matched c))
                           (total_missing acc.2 + size (missing c))
                           (total_extra acc.2 + size (extra c))))
             prefixes acc = Ok report ∧
    (∀ e, e ∈ acc.1 → e ∈ report.1) ∧
    (∀ x c, x ∈ prefixes →
       compare_prefix spreadsheet_parts our_parts x = Ok c →
       (x, c) ∈ report.1).
Proof.
  revert acc. induction prefixes as [|x l IH]; intros acc Hall; simpl.
  - exists acc. split_and!; [done | done |].
    intros x c Hx. by apply elem_of_nil in Hx.
  - destruct (Hall x) as [c Hc]; [left|]. rewrite Hc. simpl.
    edestruct IH as (report & -> & Hacc & Hl).
    { intros y Hy. apply Hall. by right. }
    exists report. split_and!; [done | |].
    + intros e He. apply Hacc. simpl. apply elem_of_app. by left.
    + intros y c' [-> | Hy]%elem_of_cons Hy'.
      * apply Hacc. simpl. apply elem_of_app. right.
        rewrite Hc in Hy'. injection Hy' as ->. left.
      * by apply Hl.
Qed.

Lemma sorted_elem (xs : gset pystr) (x : pystr) : x ∈ sorted xs ↔ x ∈ xs.
Proof.
  unfold sorted. rewrite merge_sort_Permutation. apply elem_of_elements.
Qed.
End ReportFacts.

(** The size of a set built from a list is the number of distinct
    elements of the list. *)
Lemma size_list_to_set_distinct (l : list pystr) :
  size (list_to_set l : gset pystr) = length (remove_dups l).
Proof.
  rewrite <- (size_list_to_set (C := gset pystr) (remove_dups l))
    by apply NoDup_remove_dups.
  f_equal. apply set_eq. intros x.
  by rewrite !elem_of_list_to_set, elem_of_remove_dups.
Qed.

(** C5. For a prefix present in both groupings, with [l] the records the
    spreadsheet has under it and [l'] the local names under it: the
    spreadsheet's set holds exactly the names of the records of [l] and the
    local set exactly the names of [l']; the reporter computes [matched] as
    their intersection, [missing] as spreadsheet minus local and [extra] as
    local minus spreadsheet, and reports them for that prefix; and
    [matched + missing] is the number of distinct names of [l],
    [matched + extra] the number of distinct names of [l']. *)
Theorem cross_reference_counts (spreadsheet_parts : gmap pystr (list ss_part))
  (our_parts : gmap pystr (list pystr)) (prefix : pystr)
  (l : list ss_part) (l' : list pystr) :
  spreadsheet_parts !! prefix = Some l → our_parts !! prefix = Some l' →
  ∃ ss_parts our_part_set c report,
    ss_parts_of spreadsheet_parts prefix = Ok ss_parts ∧
    our_part_set_of our_parts prefix = Ok our_part_set ∧
    (∀ n, n ∈ ss_parts ↔ ∃ p, p ∈ l ∧ ss_name p = n) ∧
    (∀ n, n ∈ our_part_set ↔ n ∈ l') ∧
    size ss_parts = length (remove_dups (ss_name <$> l)) ∧
    size our_part_set = length (remove_dups l') ∧
    compare_prefix spreadsheet_parts our_parts prefix = Ok c ∧
    analyze_patterns spreadsheet_parts our_parts = Ok report ∧
    (prefix, c) ∈ report.1 ∧
    matched c = ss_parts ∩ our_part_set ∧
    missing c = ss_parts ∖ our_part_set ∧
    extra c = our_part_set ∖ ss_parts ∧
    (∀ n, n ∈ matched c ↔ (∃ p, p ∈ l ∧ ss_name p = n) ∧ n ∈ l') ∧
    (∀ n, n ∈ missing c ↔ (∃ p, p ∈ l ∧ ss_name p = n) ∧ n ∉ l') ∧
    (∀ n, n ∈ extra c ↔ n ∈ l' ∧ ¬ ∃ p, p ∈ l ∧ ss_name p = n) ∧
    (size (matched c) + size (missing c)
     = length (remove_dups (ss_name <$> l)))%nat ∧
    (size (matched c) + size (extra c) = length (remove_dups l'))%nat.
Proof.
  intros Hl Hl'.
  destruct (analyze_loop spreadsheet_parts our_parts
              (sorted (common spreadsheet_parts our_parts))
              ([], Totals 0 0 0)) as (report & Hreport & _ & Hin).
  { intros x Hx%sorted_elem. by apply compare_prefix_common. }
  set (S1 := list_to_set (ss_name <$> l) : gset pystr).
  set (S2 := list_to_set l' : gset pystr).
  assert (∀ n, n ∈ S1 ↔ ∃ p, p ∈ l ∧ ss_name p = n) as HS1.
  { intros n. unfold S1. rewrite elem_of_list_to_set, list_elem_of_fmap.
    split; intros (p & H1 & H2); exists p; by split. }
  assert (∀ n, n ∈ S2 ↔ n ∈ l') as HS2.
  { intros n. unfold S2. by rewrite elem_of_list_to_set. }
  exists S1, S2, (Coverage (S1 ∩ S2) (S1 ∖ S2) (S2 ∖ S1)), report.
  assert (compare_prefix spreadsheet_parts our_parts prefix =
          Ok (Coverage (S1 ∩ S2) (S1 ∖ S2) (S2 ∖ S1))) as Hc.
  { unfold compare_prefix, ss_parts_of, our_part_set_of, dict_getitem.
    by rewrite Hl, Hl'. }
  split_and!; try done.
  - unfold ss_parts_of, dict_getitem. by rewrite Hl.
  - unfold our_part_set_of, dict_getitem. by rewrite Hl'.
  - apply size_list_to_set_distinct.
  - apply size_list_to_set_distinct.
  - apply Hin; [|done]. apply sorted_elem. unfold common.
    apply elem_of_intersection. split; apply elem_of_dom; by eexists.
  - intros n. simpl. by rewrite elem_of_intersection, HS1, HS2.
  - intros n. simpl. by rewrite elem_of_difference, HS1, HS2.
  - intros n. simpl. by rewrite elem_of_difference, HS1, HS2.
  - simpl. rewrite size_split. apply size_list_to_set_distinct.
  - simpl. rewrite (comm_L (∩)), size_split.
    apply size_list_to_set_distinct.
Qed.

Lemma cross_reference_counts_witness :
  ∃ ss_parts our_part_set c report,
    ss_parts_of sample_spreadsheet_parts (py "JAK") = Ok ss_parts ∧
    our_part_set_of sample_our_parts (py "JAK") = Ok our_part_set ∧
    (∀ n, n ∈ ss_parts ↔
          ∃ p, p ∈ [ SsPart 1 (py "Jakobs") (py "Pistol") (py "Barrel")
                            (py "JAK_A");
                     SsPart 2 (py "Jakobs") (py "Pistol") (py "Grip")
                            (py "JAK_B") ] ∧ ss_name p = n) ∧
    (∀ n, n ∈ our_part_set ↔ n ∈ [py "JAK_A"; py "JAK_C"]) ∧
    size ss_parts = 2%nat ∧
    size our_part_set = 2%nat ∧
    compare_prefix sample_spreadsheet_parts sample_our_parts (py "JAK") = Ok c ∧
    analyze_patterns sample_spreadsheet_parts sample_our_parts = Ok report ∧
    (py "JAK", c) ∈ report.1 ∧
    matched c = ss_parts ∩ our_part_set ∧
    missing c = ss_parts ∖ our_part_set ∧
    extra c = our_part_set ∖ ss_parts ∧
    (∀ n, n ∈ matched c ↔
          (∃ p, p ∈ [ SsPart 1 (py "Jakobs") (py "Pistol") (py "Barrel")
                             (py "JAK_A");
                      SsPart 2 (py "Jakobs") (py "Pistol") (py "Grip")
                             (py "JAK_B") ] ∧ ss_name p = n) ∧
          n ∈ [py "JAK_A"; py "JAK_C"]) ∧
    (∀ n, n ∈ missing c ↔
          (∃ p, p ∈ [ SsPart 1 (py "Jakobs") (py "Pistol") (py "Barrel")
                             (py "JAK_A");
                      SsPart 2 (py "Jakobs") (py "Pistol") (py "Grip")
                             (py "JAK_B") ] ∧ ss_name p = n) ∧
          n ∉ [py "JAK_A"; py "JAK_C"]) ∧
    (∀ n, n ∈ extra c ↔
          n ∈ [py "JAK_A"; py "JAK_C"] ∧
          ¬ ∃ p, p ∈ [ SsPart 1 (py "Jakobs") (py "Pistol") (py "Barrel")
                              (py "JAK_A");
                       SsPart 2 (py "Jakobs") (py "Pistol") (py "Grip")
                              (py "JAK_B") ] ∧ ss_name p = n) ∧
    (size (matched c) + size (missing c) = 2)%nat ∧
    (size (matched c) + size (extra c) = 2)%nat.
Proof.
  apply (cross_reference_counts sample_spreadsheet_parts sample_our_parts
           (py "JAK")).
  - vm_compute. reflexivity.
  - vm_compute. reflexivity.
Defined.

(** ** The manufacturer aliases *)

Lemma CATEGORY_MAP_NoDup : NoDup CATEGORY_MAP_items.*1.
Proof. apply (bool_decide_unpack _). by vm_compute. Qed.

Lemma CATEGORY_MAP_lookup (key : pystr * pystr) (c : Z) :
  CATEGORY_MAP !! key = Some c ↔ (key, c) ∈ CATEGORY_MAP_items.
Proof.
  unfold CATEGORY_MAP. symmetry.
  apply elem_of_list_to_map, CATEGORY_MAP_NoDup.
Qed.

(** Runs through the items of the table for a membership hypothesis. *)
Ltac item_cases H :=
  unfold CATEGORY_MAP_items in H;
  repeat (apply elem_of_cons in H as [H | H];
          [compute in H; try discriminate H; injection H as ? ?; subst|]);
  try (by apply elem_of_nil in H).

(** C6. [("Bor", t)] and [("Ripper", t)] resolve alike for every weapon
    type [t]: to the same category id where the table covers them, to
    nothing where it does not; the types covered are Shotgun (12), SMG (21),
    Sniper (25) and Heavy (246). *)
Theorem bor_ripper_alias :
  (∀ t, CATEGORY_MAP !! (py "Bor", t) = CATEGORY_MAP !! (py "Ripper", t)) ∧
  (∀ t c, CATEGORY_MAP !! (py "Bor", t) = Some c →
     (t, c) ∈ [(py "Shotgun", 12); (py "SMG", 21); (py "Sniper", 25);
               (py "Heavy", 246)]) ∧
  CATEGORY_MAP !! (py "Bor", py "Shotgun") = Some 12 ∧
  CATEGORY_MAP !! (py "Ripper", py "Shotgun") = Some 12 ∧
  CATEGORY_MAP !! (py "Bor", py "SMG") = Some 21 ∧
  CATEGORY_MAP !! (py "Ripper", py "SMG") = Some 21 ∧
  CATEGORY_MAP !! (py "Bor", py "Sniper") = Some 25 ∧
  CATEGORY_MAP !! (py "Ripper", py "Sniper") = Some 25 ∧
  CATEGORY_MAP !! (py "Bor", py "Heavy") = Some 246 ∧
  CATEGORY_MAP !! (py "Ripper", py "Heavy") = Some 246.
Proof.
  split_and!.
  3-10: by vm_compute.
  - intros t.
    destruct (CATEGORY_MAP !! (py "Bor", t)) as [c|] eqn:Hbor.
    + apply CATEGORY_MAP_lookup in Hbor. item_cases Hbor; by vm_compute.
    + destruct (CATEGORY_MAP !! (py "Ripper", t)) as [c|] eqn:Hrip; [|done].
      apply CATEGORY_MAP_lookup in Hrip. item_cases Hrip;
        by vm_compute in Hbor.
  - intros t c Hbor. apply CATEGORY_MAP_lookup in Hbor.
    item_cases Hbor; apply (bool_decide_unpack _); by vm_compute.
Qed.

Lemma bor_ripper_alias_witness :
  (py "SMG", 21) ∈ [(py "Shotgun", 12); (py "SMG", 21); (py "Sniper", 25);
                    (py "Heavy", 246)].
Proof.
  destruct bor_ripper_alias as (_ & Hcovered & _).
  apply (Hcovered (py "SMG") 21). vm_compute. reflexivity.
Defined.

(** ** The scenarios of the specification *)

(** One header row and one data row give one part. *)
Example scenario_one_row :
  parse_spreadsheet int_ascii [row_header; row_jakobs] = Ok [part_jakobs] ∧
  out_parts <$> main int_ascii [row_header; row_jakobs] None =
  Ok [old_part 3 5 (py "JAK_Barrel_01.json") (py "Jakobs Pistol")].
Proof. split; by vm_compute. Qed.

(** A part id that is not a number gives no record and no error. *)
Example scenario_abc :
  parse_spreadsheet int_ascii [row_header; row_abc] = Ok [].
Proof. reflexivity. Qed.

(** Rows before the header are ignored. *)
Example scenario_no_header :
  parse_spreadsheet int_ascii [row_jakobs; row_header] = Ok [].
Proof. reflexivity. Qed.

(** The catalog has categories 3 and 4, the new parts category 3 only. *)
Example scenario_merge :
  merge_with_existing [part_jakobs] (Some catalog_3_4) =
  Ok [part_jakobs; old_part 4 2 (py "TED_Grip.x") (py "Tediore Pistol")].
Proof. by vm_compute. Qed.

(** A part without [category] in the catalog makes the merge raise. *)
Example scenario_merge_KeyError :
  merge_with_existing [part_jakobs] (Some (Catalog (Some [∅]))) =
  Raise KeyError.
Proof. by vm_compute. Qed.

Example scenario_cross_reference :
  compare_prefix sample_spreadsheet_parts sample_our_parts (py "JAK") =
  Ok (Coverage {[py "JAK_A"]} {[py "JAK_B"]} {[py "JAK_C"]}).
Proof. by vm_compute. Qed.

(** The cross-reference loader groups by the text before the first ['.']
    and drops the name without one. *)
Example scenario_load :
  load_spreadsheet_parts int_ascii [row_header; row_jakobs; row_no_dot] =
  Ok {[ py "JAK_Barrel_01" :=
          [SsPart 5 (py "Jakobs") (py "Pistol") (py "Barrel")
                  (py "JAK_Barrel_01.json")] ]}.
Proof. by vm_compute. Qed.

(** * Further properties *)

(** ** Rows before and after the header *)

Lemma for_each_app {A S : Type} (f : S → A → result S) (l1 l2 : list A) (s : S) :
  for_each f (l1 ++ l2) s = for_each f l1 s ≫= for_each f l2.
Proof.
  revert s. induction l1 as [|x l1 IH]; intros s; simpl; [done|].
  destruct (f s x) as [s'|e]; simpl; [apply IH | done].
Qed.

Section HeaderFacts.
Variable py_int : pystr → option Z.

(** The loop bodies read [header] only to test it against [None]. *)
Lemma parse_row_header h row :
  h ≠ None → parse_row py_int h row = parse_row py_int (Some []) row.
Proof.
  intros Hh. destruct h as [h|]; [|done]. unfold parse_row.
  rewrite (bool_decide_eq_false_2 (Some h = None)) by done.
  by rewrite (bool_decide_eq_false_2 (Some [] = None)) by done.
Qed.

Lemma parse_row_no_header row :
  row !! 0%nat ≠ Some s_Manufacturer →
  parse_row py_int None row = Ok Continue.
Proof.
  intros Hrow. unfold parse_row.
  destruct row as [|c0 row]; row_cbn; [done|].
  rewrite (bool_decide_eq_false_2 (c0 :: row = [])) by done.
  case_bool_decide; [done|].
  rewrite bool_decide_eq_false_2 by (intros ->; by apply Hrow).
  done.
Qed.

Lemma load_row_no_header row :
  row !! 0%nat ≠ Some s_Manufacturer →
  load_row py_int None row = Ok Continue.
Proof.
  intros Hrow. unfold load_row.
  destruct row as [|c0 row]; row_cbn; [done|].
  rewrite (bool_decide_eq_false_2 (c0 :: row = [])) by done.
  case_bool_decide; [done|].
  rewrite bool_decide_eq_false_2 by (intros ->; by apply Hrow).
  done.
Qed.

Lemma parse_row_is_header h row :
  row !! 0%nat = Some s_Manufacturer →
  parse_row py_int h row = Ok (Header row).
Proof.
  intros Hrow. unfold parse_row.
  destruct row as [|c0 row]; [done|]. injection Hrow as ->. row_cbn.
  rewrite (bool_decide_eq_false_2 (s_Manufacturer :: row = [])) by done.
  rewrite (bool_decide_eq_false_2 (s_Manufacturer = [])) by done.
  by rewrite (bool_decide_eq_true_2 (s_Manufacturer = s_Manufacturer)).
Qed.

(** Without a header the loop leaves its variables as they are. *)
Lemma read_rows_no_header {A Acc : Type}
  (body : option (list pystr) → list pystr → result (outcome A))
  (add : Acc → A → Acc) (rows : list (list pystr)) (st : reader Acc) :
  header st = None →
  (∀ row, row ∈ rows → body None row = Ok Continue) →
  read_rows body add rows st = Ok st.
Proof.
  intros Hst Hrows. unfold read_rows.
  induction rows as [|row rows IH]; simpl; [done|].
  rewrite Hst, (Hrows row) by left. simpl.
  apply IH. intros r Hr. apply Hrows. by right.
Qed.

(** With a header, the loop appends what each row contributes, in the
    order of the rows. *)
Lemma read_rows_contributions (rows : list (list pystr))
  (st : reader (list part)) :
  header st ≠ None →
  ∃ st', read_rows (parse_row py_int) (λ parts p, parts ++ [p]) rows st
         = Ok st' ∧
    header st' ≠ None ∧
    records st' = records st ++ omap (emitted py_int) rows ∧
    skipped st' = skipped st ++ omap (skipped_by py_int) rows.
Proof.
  unfold read_rows. revert st.
  induction rows as [|row rows IH]; intros st Hst; simpl.
  - exists st. by rewrite !app_nil_r.
  - rewrite (parse_row_header _ _ Hst). unfold emitted, skipped_by.
    destruct (parse_row_total py_int (Some []) row) as [o ->]. simpl.
    destruct o as [|hdr|p|msg]; simpl.
    + by apply IH.
    + destruct (IH (Reader (Some hdr) (records st) (skipped st)))
        as (st' & -> & ? & ? & ?); [done|]. by exists st'.
    + destruct (IH (Reader (header st) (records st ++ [p]) (skipped st)))
        as (st' & -> & ? & Hr & ?); [done|]. exists st'.
      simpl in Hr. by rewrite Hr, <- app_assoc.
    + destruct (IH (Reader (header st) (records st) (skipped st ++ [msg])))
        as (st' & -> & ? & ? & Hs); [done|]. exists st'.
      simpl in Hs. by rewrite Hs, <- app_assoc.
Qed.
End HeaderFacts.

(** X1. Rows before the first header row are ignored, the header row and
    any later header row add nothing, and after it [parse_spreadsheet]
    returns what each row contributes, in the order of the rows. *)
Theorem parse_spreadsheet_after_header (py_int : pystr → option Z)
  (pre : list (list pystr)) (hdr : list pystr) (rows : list (list pystr)) :
  (∀ row, row ∈ pre → row !! 0%nat ≠ Some s_Manufacturer) →
  hdr !! 0%nat = Some s_Manufacturer →
  parse_spreadsheet py_int (pre ++ hdr :: rows)
  = Ok (omap (emitted py_int) rows).
Proof.
  intros Hpre Hhdr.
  unfold parse_spreadsheet, parse_spreadsheet_state, read_rows.
  rewrite for_each_app.
  pose proof (read_rows_no_header (parse_row py_int)
                (λ parts p, parts ++ [p]) pre (Reader None [] []) eq_refl)
    as Hno.
  unfold read_rows in Hno. rewrite Hno.
  - simpl. rewrite (parse_row_is_header _ _ _ Hhdr). simpl.
    destruct (read_rows_contributions py_int rows (Reader (Some hdr) [] []))
      as (st' & Hst' & _ & Hrec & _); [done|].
    unfold read_rows in Hst'. rewrite Hst'. simpl. by rewrite Hrec.
  - intros row Hrow. by apply parse_row_no_header, Hpre.
Qed.

Lemma parse_spreadsheet_after_header_witness :
  parse_spreadsheet int_ascii
    ([row_jakobs; []] ++ row_header :: [row_abc; row_header; row_jakobs])
  = Ok (omap (emitted int_ascii) [row_abc; row_header; row_jakobs]).
Proof.
  apply (parse_spreadsheet_after_header int_ascii [row_jakobs; []] row_header).
  - intros row Hrow.
    apply elem_of_cons in Hrow as [-> | Hrow]; [by vm_compute|].
    apply list_elem_of_singleton in Hrow as ->. by vm_compute.
  - reflexivity.
Defined.

(** X2. When no row has [Manufacturer] as its first cell, neither reader
    returns a record. *)
Theorem readers_need_header (py_int : pystr → option Z)
  (rows : list (list pystr)) :
  (∀ row, row ∈ rows → row !! 0%nat ≠ Some s_Manufacturer) →
  parse_spreadsheet py_int rows = Ok [] ∧
  load_spreadsheet_parts py_int rows = Ok ∅.
Proof.
  intros Hrows. split.
  - unfold parse_spreadsheet, parse_spreadsheet_state.
    rewrite read_rows_no_header; [done | done |].
    intros row Hrow. by apply parse_row_no_header, Hrows.
  - unfold load_spreadsheet_parts.
    rewrite read_rows_no_header; [done | done |].
    intros row Hrow. by apply load_row_no_header, Hrows.
Qed.

Lemma readers_need_header_witness :
  parse_spreadsheet int_ascii [row_jakobs; row_no_dot] = Ok [] ∧
  load_spreadsheet_parts int_ascii [row_jakobs; row_no_dot] = Ok ∅.
Proof.
  apply (readers_need_header int_ascii [row_jakobs; row_no_dot]).
  intros row Hrow.
  apply elem_of_cons in Hrow as [-> | Hrow]; [by vm_compute|].
  apply list_elem_of_singleton in Hrow as ->. by vm_compute.
Defined.

(** ** The records and the diagnostics of the import *)

Lemma CATEGORY_MAP_named (key : pystr * pystr) (c : Z) :
  CATEGORY_MAP !! key = Some c →
  is_Some (CATEGORY_NAMES !! c) ∧
  (2 ≤ c ≤ 23 ∨ 25 ≤ c ≤ 29 ∨ 244 ≤ c ≤ 247).
Proof.
  intros H%CATEGORY_MAP_lookup.
  item_cases H; (split; [eexists; vm_compute; reflexivity | lia]).
Qed.

Lemma new_part_keys category part_id part_string group part_type (k : pystr) :
  is_Some (new_part category part_id part_string group part_type !! k) ↔
  k ∈ [k_category; k_index; k_name; k_group; k_part_type].
Proof.
  unfold new_part. rewrite <- elem_of_dom, dom_list_to_map_L.
  by rewrite elem_of_list_to_set.
Qed.

(** X3. Every record of [parse_spreadsheet] has exactly the fields
    [category], [index], [name], [group] and [part_type]; its category is
    one of the ids of the table (2 to 23, 25 to 29, 244 to 247) and its
    group is the name registered for that id, never the [Category n]
    fallback. *)
Theorem import_record_shape (py_int : pystr → option Z)
  (rows : list (list pystr)) (parts : list part) (p : part) :
  parse_spreadsheet py_int rows = Ok parts → p ∈ parts →
  ∃ c g,
    p !! k_category = Some (VInt c) ∧
    (2 ≤ c ≤ 23 ∨ 25 ≤ c ≤ 29 ∨ 244 ≤ c ≤ 247) ∧
    CATEGORY_NAMES !! c = Some g ∧
    p !! k_group = Some (VStr g) ∧
    ∀ k, is_Some (p !! k) ↔
         k ∈ [k_category; k_index; k_name; k_group; k_part_type].
Proof.
  intros Hparse Hp.
  destruct (parse_spreadsheet_elem _ _ _ _ Hparse Hp) as (h & row & _ & He).
  apply parse_row_Emit in He
    as (c0 & c1 & c2 & c3 & c4 & rest & z & c & _ & _ & _ & _ & _ & _
        & _ & _ & _ & Hc & ->).
  destruct (CATEGORY_MAP_named _ _ Hc) as [[g Hg] Hrange].
  exists c, g. rewrite Hg. simpl.
  split_and!; [apply new_part_lookup | done | done | apply new_part_lookup |].
  apply new_part_keys.
Qed.

Lemma import_record_shape_witness :
  ∃ c g,
    part_jakobs !! k_category = Some (VInt c) ∧
    (2 ≤ c ≤ 23 ∨ 25 ≤ c ≤ 29 ∨ 244 ≤ c ≤ 247) ∧
    CATEGORY_NAMES !! c = Some g ∧
    part_jakobs !! k_group = Some (VStr g) ∧
    ∀ k, is_Some (part_jakobs !! k) ↔
         k ∈ [k_category; k_index; k_name; k_group; k_part_type].
Proof.
  apply (import_record_shape int_ascii [row_header; row_jakobs] [part_jakobs]).
  - vm_compute. reflexivity.
  - left.
Defined.

Ltac row_done_skipped :=
  first
    [ row_done
    | match goal with
      | |- Ok (Emit _) = Ok (Skipped _) → _ => by intros [=]
      end ].

Lemma Ok_Skipped_inj {A : Type} (a b : pystr) :
  Ok (@Skipped A a) = Ok (Skipped b) → a = b.
Proof. by intros [=]. Qed.

Section SkippedFacts.
Variable py_int : pystr → option Z.

Lemma parse_row_Skipped h row msg :
  parse_row py_int h row = Ok (Skipped msg) ↔
  ∃ c0 c1 c2 c3 c4 rest part_id,
    row = c0 :: c1 :: c2 :: c3 :: c4 :: rest ∧
    c0 ≠ [] ∧ c0 ≠ s_Manufacturer ∧ h ≠ None ∧
    strip c0 ≠ [] ∧ strip c0 ≠ s_Manufacturer ∧
    py_int (strip c2) = Some part_id ∧
    strip c4 ≠ [] ∧ startswith (strip c4) PART_PREFIXES = true ∧
    CATEGORY_MAP !! (strip c0, strip c1) = None ∧
    msg = strip c0 ++ py " " ++ strip c1 ++ py ": " ++ strip c4.
Proof.
  split.
  - unfold parse_row, int_of.
    match goal with |- _ → ?G => set (Concl := G) end.
    destruct row as [|c0 [|c1 [|c2 [|c3 [|c4 rest]]]]]; row_cbn;
      repeat (try row_done_skipped; row_case); try row_done_skipped.
    match goal with
    | Hi : py_int _ = Some ?z |- _ =>
        intros <-%Ok_Skipped_inj; exists c0, c1, c2, c3, c4, rest, z
    end.
    split_and!; first [assumption | reflexivity].
  - intros (c0 & c1 & c2 & c3 & c4 & rest & part_id & -> & H0 & H0'
            & Hh & Hm & Hm' & Hint & Hs & Hpre & Hcat & ->).
    unfold parse_row, int_of, dict_getitem. row_cbn.
    rewrite Hint, Hcat. row_cbn.
    repeat (try row_done; row_case); try row_done. reflexivity.
Qed.
End SkippedFacts.

(** X4. Every entry of [skipped] comes from a row after the header with an
    integer id and a prefixed part string whose trimmed manufacturer and
    weapon type are not in [CATEGORY_MAP]; the entry names the three texts,
    and that row gives no record. *)
Theorem skipped_entries (py_int : pystr → option Z)
  (rows : list (list pystr)) (st : reader (list part)) (msg : pystr) :
  parse_spreadsheet_state py_int rows = Ok st → msg ∈ skipped st →
  ∃ row c0 c1 c4,
    row ∈ rows ∧
    row !! 0%nat = Some c0 ∧ row !! 1%nat = Some c1 ∧ row !! 4%nat = Some c4 ∧
    CATEGORY_MAP !! (strip c0, strip c1) = None ∧
    msg = strip c0 ++ py " " ++ strip c1 ++ py ": " ++ strip c4 ∧
    ∀ h p, parse_row py_int h row ≠ Ok (Emit p).
Proof.
  unfold parse_spreadsheet_state, read_rows.
  assert (∀ rows (st0 st : reader (list part)),
    for_each (λ st row, o ← parse_row py_int (header st) row;
                Ok (record_outcome (λ parts p, parts ++ [p]) st o))
             rows st0 = Ok st →
    msg ∈ skipped st →
    msg ∈ skipped st0 ∨
    ∃ h row, row ∈ rows ∧ parse_row py_int h row = Ok (Skipped msg)) as Hloop.
  { clear. intros rows.
    induction rows as [|row rows IH]; intros st0 st; simpl.
    - intros [= <-]. by left.
    - intros (st1 & (o & Ho & [= <-])%bind_Ok & Hrest)%bind_Ok Hm.
      destruct (IH _ _ Hrest Hm) as [Hin | (h & r & Hr & Hb)].
      + destruct o as [| | |m]; simpl in Hin; try by left.
        apply elem_of_app in Hin as [Hin | ->%list_elem_of_singleton];
          [by left|].
        right. exists (header st0), row. split; [left | done].
      + right. exists h, r. split; [by right | done]. }
  intros Hst Hm.
  destruct (Hloop _ _ _ Hst Hm) as [Hin | (h & row & Hrow & Hs)];
    [by apply elem_of_nil in Hin|].
  apply parse_row_Skipped in Hs
    as (c0 & c1 & c2 & c3 & c4 & rest & z & -> & _ & _ & _ & _ & _ & _ & _
        & _ & Hcat & ->).
  exists (c0 :: c1 :: c2 :: c3 :: c4 :: rest), c0, c1, c4.
  split_and!; try done.
  intros h' p He. apply parse_row_Emit in He
    as (d0 & d1 & d2 & d3 & d4 & rest' & z' & c' & [= <- <- <- <- <- <-] & _
        & _ & _ & _ & _ & _ & _ & _ & Hcat' & _).
  congruence.
Qed.

Lemma skipped_entries_witness :
  ∃ row c0 c1 c4,
    row ∈ [row_header; row_unknown] ∧
    row !! 0%nat = Some c0 ∧ row !! 1%nat = Some c1 ∧ row !! 4%nat = Some c4 ∧
    CATEGORY_MAP !! (strip c0, strip c1) = None ∧
    py "Foo Shotgun: BOR_SG.x"
      = strip c0 ++ py " " ++ strip c1 ++ py ": " ++ strip c4 ∧
    ∀ h p, parse_row int_ascii h row ≠ Ok (Emit p).
Proof.
  apply (skipped_entries int_ascii [row_header; row_unknown]
           (Reader (Some row_header) [] [py "Foo Shotgun: BOR_SG.x"])).
  - vm_compute. reflexivity.
  - left.
Defined.

(** ** The aliases, row by row *)

Lemma bor_ripper_same (t : pystr) :
  CATEGORY_MAP !! (py "Bor", t) = CATEGORY_MAP !! (py "Ripper", t).
Proof.
  destruct (CATEGORY_MAP !! (py "Bor", t)) as [c|] eqn:Hbor.
  - apply CATEGORY_MAP_lookup in Hbor. item_cases Hbor; by vm_compute.
  - destruct (CATEGORY_MAP !! (py "Ripper", t)) as [c|] eqn:Hrip; [|done].
    apply CATEGORY_MAP_lookup in Hrip. item_cases Hrip; by vm_compute in Hbor.
Qed.

(** X5. Two rows that differ only in the manufacturer cell, [Bor] in one
    and [Ripper] in the other, give the same record: same category, index,
    name, group and part type. *)
Theorem bor_ripper_rows (py_int : pystr → option Z)
  (h : option (list pystr)) (cells : list pystr) (p : part) :
  parse_row py_int h (py "Bor" :: cells) = Ok (Emit p) ↔
  parse_row py_int h (py "Ripper" :: cells) = Ok (Emit p).
Proof.
  rewrite !parse_row_Emit. split.
  - intros (c0 & c1 & c2 & c3 & c4 & rest & z & c & [= <- ->] & _ & _ & Hh
            & _ & _ & Hint & Hne & Hpre & Hcat & ->).
    exists (py "Ripper"), c1, c2, c3, c4, rest, z, c.
    change (strip (py "Bor")) with (py "Bor") in Hcat.
    rewrite bor_ripper_same in Hcat.
    split_and!; try done.
  - intros (c0 & c1 & c2 & c3 & c4 & rest & z & c & [= <- ->] & _ & _ & Hh
            & _ & _ & Hint & Hne & Hpre & Hcat & ->).
    exists (py "Bor"), c1, c2, c3, c4, rest, z, c.
    change (strip (py "Ripper")) with (py "Ripper") in Hcat.
    rewrite <- bor_ripper_same in Hcat.
    split_and!; try done.
Qed.

(** ** The two readers on the same row *)

(** X6. A row from which [parse_spreadsheet] makes a record is also a
    record of [load_spreadsheet_parts] exactly when its name contains
    ['.'], and then with the same id, name and part type, filed under the
    text before the first ['.']. *)
Theorem readers_agree (py_int : pystr → option Z)
  (h : option (list pystr)) (row : list pystr) (p : part) :
  parse_row py_int h row = Ok (Emit p) →
  ∃ z name part_type,
    p !! k_index = Some (VInt z) ∧
    p !! k_name = Some (VStr name) ∧
    p !! k_part_type = Some (VStr part_type) ∧
    (dot ∈ name →
       ∃ r, load_row py_int h row = Ok (Emit (before_dot name, r)) ∧
            ss_id r = z ∧ ss_name r = name ∧ ss_part_type r = part_type) ∧
    (dot ∉ name → load_row py_int h row = Ok Continue).
Proof.
  intros He. apply parse_row_Emit in He
    as (c0 & c1 & c2 & c3 & c4 & rest & z & c & -> & H0 & H0' & Hh & _ & _
        & Hint & Hne & _ & _ & ->).
  exists z, (strip c4), (strip c3).
  split_and!; try apply new_part_lookup.
  - intros Hdot.
    exists (SsPart z (strip c0) (strip c1) (strip c3) (strip c4)).
    split; [|done]. apply load_row_Emit.
    exists c0, c1, c2, c3, c4, rest, z. split_and!; try done.
    by apply contains_elem_of.
  - intros Hdot. unfold load_row, int_of. row_cbn. rewrite Hint. row_cbn.
    assert (contains dot (strip c4) = false) as Hc.
    { destruct (contains dot (strip c4)) eqn:E; [|done].
      by apply contains_elem_of in E. }
    repeat (try row_done; row_case); try row_done; try done; congruence.
Qed.

Lemma readers_agree_witness :
  ∃ z name part_type,
    part_jakobs !! k_index = Some (VInt z) ∧
    part_jakobs !! k_name = Some (VStr name) ∧
    part_jakobs !! k_part_type = Some (VStr part_type) ∧
    (dot ∈ name →
       ∃ r, load_row int_ascii (Some row_header) row_jakobs
            = Ok (Emit (before_dot name, r)) ∧
            ss_id r = z ∧ ss_name r = name ∧ ss_part_type r = part_type) ∧
    (dot ∉ name →
       load_row int_ascii (Some row_header) row_jakobs = Ok Continue).
Proof.
  apply (readers_agree int_ascii (Some row_header) row_jakobs part_jakobs).
  vm_compute. reflexivity.
Defined.

Lemma bor_ripper_rows_witness :
  parse_row int_ascii (Some row_header) (py "Ripper" :: shotgun_cells)
  = Ok (Emit part_no_dot).
Proof.
  apply (bor_ripper_rows int_ascii (Some row_header) shotgun_cells part_no_dot).
  vm_compute. reflexivity.
Defined.

(** ** The groups of the cross-reference loader *)

Lemma read_rows_invariant {A Acc : Type}
  (body : option (list pystr) → list pystr → result (outcome A))
  (add : Acc → A → Acc) (I : Acc → Prop) :
  (∀ h row a acc, body h row = Ok (Emit a) → I acc → I (add acc a)) →
  ∀ rows st st',
    I (records st) → read_rows body add rows st = Ok st' → I (records st').
Proof.
  intros Hadd rows. unfold read_rows.
  induction rows as [|row rows IH]; intros st st' Hst; simpl.
  - by intros [= <-].
  - intros (st1 & (o & Ho & [= <-])%bind_Ok & Hrest)%bind_Ok.
    eapply IH; [|exact Hrest].
    destruct o; simpl; try done. by eapply Hadd.
Qed.

Lemma before_dot_no_dot (x : pystr) : dot ∉ before_dot x.
Proof.
  induction x as [|c x IH]; [by apply not_elem_of_nil|].
  change (before_dot (c :: x))
    with (if bool_decide (c = dot) then [] else c :: before_dot x).
  case_bool_decide as Hc; [by apply not_elem_of_nil|].
  intros [Heq | Hin]%elem_of_cons; [by apply Hc | by apply IH].
Qed.

(** X7. In the mapping [load_spreadsheet_parts] returns no group is empty,
    the key of a group contains no ['.'], and every record of a group has
    a name that is not empty, contains ['.'] and starts with the key up to
    its first ['.']. *)
Theorem load_groups (py_int : pystr → option Z) (rows : list (list pystr))
  (by_prefix : gmap pystr (list ss_part)) (prefix : pystr) (l : list ss_part) :
  load_spreadsheet_parts py_int rows = Ok by_prefix →
  by_prefix !! prefix = Some l →
  l ≠ [] ∧ (dot ∉ prefix) ∧
  (∀ r, r ∈ l →
     ss_name r ≠ [] ∧ dot ∈ ss_name r ∧ before_dot (ss_name r) = prefix).
Proof.
  unfold load_spreadsheet_parts. intros (st & Hst & ->)%fmap_Ok.
  revert prefix l.
  eapply (read_rows_invariant (load_row py_int) append_by_prefix
    (λ m, ∀ prefix l, m !! prefix = Some l →
       l ≠ [] ∧ (dot ∉ prefix) ∧
       (∀ r, r ∈ l →
          ss_name r ≠ [] ∧ dot ∈ ss_name r ∧
          before_dot (ss_name r) = prefix)));
    [| |exact Hst].
  - intros h row a m He Hm prefix l.
    apply load_row_Emit in He
      as (c0 & c1 & c2 & c3 & c4 & rest & z & _ & _ & _ & _ & _ & Hne
          & Hdot%contains_elem_of & ->).
    unfold append_by_prefix. simpl.
    destruct (decide (before_dot (strip c4) = prefix)) as [<-|Hp].
    + rewrite lookup_insert_eq. intros [= <-].
      split_and!; [by destruct (default [] _) | apply before_dot_no_dot |].
      intros r [Hr | ->%list_elem_of_singleton]%elem_of_app; [|done].
      destruct (m !! before_dot (strip c4)) as [l0|] eqn:Hl0; simpl in Hr.
      * by apply (Hm _ _ Hl0).
      * by apply elem_of_nil in Hr.
    + rewrite lookup_insert_ne by done. apply Hm.
  - simpl. intros prefix l. by rewrite lookup_empty.
Qed.

Lemma load_groups_witness :
  [SsPart 5 (py "Jakobs") (py "Pistol") (py "Barrel")
          (py "JAK_Barrel_01.json")] ≠ [] ∧
  (dot ∉ py "JAK_Barrel_01") ∧
  (∀ r, r ∈ [SsPart 5 (py "Jakobs") (py "Pistol") (py "Barrel")
                    (py "JAK_Barrel_01.json")] →
     ss_name r ≠ [] ∧ dot ∈ ss_name r ∧
     before_dot (ss_name r) = py "JAK_Barrel_01").
Proof.
  apply (load_groups int_ascii [row_header; row_jakobs; row_no_dot]
           {[ py "JAK_Barrel_01" :=
                [SsPart 5 (py "Jakobs") (py "Pistol") (py "Barrel")
                        (py "JAK_Barrel_01.json")] ]}).
  - vm_compute. reflexivity.
  - vm_compute. reflexivity.
Defined.

(** ** The preview of the skipped rows *)

(** X8. [parse_spreadsheet] prints nothing when no row was skipped, and
    otherwise a count line, the first ten entries in order, each indented
    by two spaces, and one more line when there are more than ten: never
    more than twelve lines. *)
Theorem skipped_report_preview (skipped : list pystr) :
  (skipped_report skipped = [] ↔ skipped = []) ∧
  (length (skipped_report skipped) ≤ 12)%nat ∧
  (skipped ≠ [] →
     length (skipped_report skipped)
     = (1 + length skipped `min` 10
          + (if decide (10 < length skipped) then 1 else 0))%nat) ∧
  (∀ i s, (i < 10)%nat → skipped !! i = Some s →
          skipped_report skipped !! S i = Some (py "  " ++ s)).
Proof.
  unfold skipped_report. split_and!.
  - case_bool_decide; [done|]. split; [done|]. by intros ->.
  - case_bool_decide; [simpl; lia|].
    cbn [length]. rewrite length_app, length_fmap, length_take.
    case_bool_decide; cbn [length]; lia.
  - intros Hne. rewrite bool_decide_eq_false_2 by done.
    cbn [length]. rewrite length_app, length_fmap, length_take.
    case_bool_decide; destruct (decide (10 < length skipped)%nat);
      cbn [length]; lia.
  - intros i s Hi Hs.
    rewrite bool_decide_eq_false_2 by (intros ->; by rewrite lookup_nil in Hs).
    match goal with
    | |- (?line :: ?rest) !! S i = _ =>
        change ((line :: rest) !! S i) with (rest !! i)
    end.
    rewrite lookup_app_l.
    + by rewrite list_lookup_fmap, lookup_take_lt, Hs by done.
    + rewrite length_fmap, length_take. apply lookup_lt_Some in Hs. lia.
Qed.

(** ** The text of the file *)

Lemma replace_char (a b : N) (x : pystr) :
  replace [a] [b] x = (λ c, if bool_decide (c = a) then b else c) <$> x.
Proof.
  unfold replace. induction x as [|c x IH]; [done|].
  cbn [replace_from startswith1 length Nat.sub andb fmap list_fmap].
  rewrite IH. destruct x; repeat case_bool_decide; simpl; congruence.
Qed.

Lemma replace_from_cons (old new : pystr) (c : N) (x : pystr) :
  replace_from old new 0 (c :: x) =
  if startswith1 (c :: x) old
  then new ++ replace_from old new (length old - 1) x
  else c :: replace_from old new 0 x.
Proof. reflexivity. Qed.

Lemma crlf_cons (c : N) (x : pystr) :
  replace [CR; LF] [LF] (c :: x) =
  match x with
  | d :: x' =>
    if bool_decide (c = CR ∧ d = LF) then LF :: replace [CR; LF] [LF] x'
    else c :: replace [CR; LF] [LF] x
  | [] => [c]
  end.
Proof.
  unfold replace. rewrite replace_from_cons.
  cbn [startswith1 length Nat.sub app].
  destruct x as [|d x]; [by rewrite andb_false_r|].
  change (replace_from [CR; LF] [LF] 1 (d :: x))
    with (replace_from [CR; LF] [LF] 0 x).
  rewrite andb_true_r.
  destruct (decide (CR = c)) as [<-|Hc], (decide (LF = d)) as [<-|Hd].
  - by rewrite !bool_decide_eq_true_2.
  - rewrite (bool_decide_eq_false_2 (LF = d)) by done.
    rewrite andb_false_r.
    by rewrite (bool_decide_eq_false_2 (CR = CR ∧ d = LF))
      by (intros [_ ?]; congruence).
  - rewrite (bool_decide_eq_false_2 (CR = c)) by done.
    by rewrite (bool_decide_eq_false_2 (c = CR ∧ LF = LF))
      by (intros [? _]; congruence).
  - rewrite (bool_decide_eq_false_2 (CR = c)) by done.
    by rewrite (bool_decide_eq_false_2 (c = CR ∧ d = LF))
      by (intros [? _]; congruence).
Qed.

Lemma crlf_without_CR (x : pystr) : CR ∉ x → replace [CR; LF] [LF] x = x.
Proof.
  induction x as [|c x IH]; [done|]. intros Hx.
  rewrite crlf_cons. destruct x as [|d x]; [done|].
  rewrite bool_decide_eq_false_2.
  - rewrite IH; [done|]. intros ?. apply Hx. by right.
  - intros [-> _]. apply Hx. left.
Qed.

Lemma split_on_cons (sep c : N) (x : pystr) :
  ∃ l ls, split_on sep x = l :: ls ∧
          split_on sep (c :: x)
          = if bool_decide (c = sep) then [] :: l :: ls else (c :: l) :: ls.
Proof.
  revert c. induction x as [|d x IH]; intros c.
  - exists [], []. by simpl.
  - destruct (IH d) as (l & ls & Hx & Hdx).
    cbn [split_on]. rewrite Hx.
    case_bool_decide; eexists _, _; (split; [done|]); by case_bool_decide.
Qed.

Lemma split_on_no_sep (sep : N) (x l : pystr) :
  l ∈ split_on sep x → sep ∉ l.
Proof.
  revert l. induction x as [|c x IH]; intros l.
  - intros ->%list_elem_of_singleton. apply not_elem_of_nil.
  - destruct (split_on_cons sep c x) as (l0 & ls & Hx & ->).
    rewrite Hx in IH. case_bool_decide as Hc.
    + intros [-> | Hl]%elem_of_cons; [apply not_elem_of_nil | by apply IH].
    + intros [-> | Hl]%elem_of_cons.
      * intros [Heq | Hin]%elem_of_cons; [by apply Hc|].
        by apply (IH l0); [left|].
      * apply IH. by right.
Qed.

Lemma split_on_chars (sep : N) (x l : pystr) (c : N) :
  l ∈ split_on sep x → c ∈ l → c ∈ x.
Proof.
  revert l. induction x as [|d x IH]; intros l.
  - intros ->%list_elem_of_singleton Hc. by apply elem_of_nil in Hc.
  - destruct (split_on_cons sep d x) as (l0 & ls & Hx & ->).
    rewrite Hx in IH. case_bool_decide as Hd.
    + intros [-> | Hl]%elem_of_cons Hc; [by apply elem_of_nil in Hc|].
      right. by eapply IH.
    + intros [-> | Hl]%elem_of_cons Hc.
      * apply elem_of_cons in Hc as [-> | Hc]; [left|].
        right. apply (IH l0); [left | done].
      * right. apply (IH l); [by right | done].
Qed.

Lemma split_on_concat (sep : N) (x : pystr) :
  concat (cons sep <$> split_on sep x) = sep :: x ∧
  length (split_on sep x) = S (length (filter (λ c, c = sep) x)).
Proof.
  induction x as [|c x [IH1 IH2]]; [done|].
  destruct (split_on_cons sep c x) as (l0 & ls & Hx & ->).
  rewrite Hx in IH1, IH2. simpl in IH1, IH2. case_bool_decide as Hc.
  - subst c. rewrite filter_cons_True by done. simpl.
    split; [by rewrite IH1 | by rewrite IH2].
  - rewrite filter_cons_False by done. simpl. split; [|done].
    by injection IH1 as ->.
Qed.

(** X9. No line handed to the CSV reader contains a line feed or a
    non-breaking space, and there is at least one line. *)
Theorem content_lines_clean (content : pystr) :
  content_lines content ≠ [] ∧
  ∀ l, l ∈ content_lines content → (LF ∉ l) ∧ (NBSP ∉ l).
Proof.
  unfold content_lines. split.
  - destruct (normalize content) as [|c x]; [done|].
    by destruct (split_on_cons LF c x) as (l & ls & _ & ->);
      case_bool_decide.
  - intros l Hl. split; [by eapply split_on_no_sep|].
    intros Hin. pose proof (split_on_chars _ _ _ _ Hl Hin) as Hn.
    unfold normalize in Hn. rewrite replace_char in Hn.
    apply list_elem_of_fmap in Hn as (c & Hc & _).
    by case_bool_decide.
Qed.

(** X10. Joined by line feeds, the lines are the normalized text, and
    there is one line more than the text has line feeds: splitting drops
    no character. *)
Theorem content_lines_join (content : pystr) :
  concat (cons LF <$> content_lines content) = LF :: normalize content ∧
  length (content_lines content)
  = S (length (filter (λ c, c = LF) (normalize content))).
Proof. apply split_on_concat. Qed.

(** X11. A text without carriage returns gives the same lines whether its
    line ends are written as line feeds or as carriage return and line
    feed. *)
Theorem content_lines_crlf (x : pystr) :
  CR ∉ x →
  content_lines
    (concat ((λ c, if bool_decide (c = LF) then [CR; LF] else [c]) <$> x))
  = content_lines x.
Proof.
  intros Hx. unfold content_lines, normalize. do 2 f_equal.
  rewrite (crlf_without_CR x Hx).
  induction x as [|c x IH]; [done|].
  assert (CR ∉ x) as Hx' by (intros ?; apply Hx; by right).
  assert (c ≠ CR) as Hc by (intros ->; apply Hx; left).
  specialize (IH Hx'). rewrite fmap_cons, concat_cons.
  set (y := concat _) in *. case_bool_decide as Hlf.
  - subst c. cbn [app]. rewrite crlf_cons.
    rewrite bool_decide_eq_true_2 by done. by rewrite IH.
  - cbn [app]. rewrite crlf_cons. destruct y as [|d y'].
    + by rewrite <- IH.
    + rewrite bool_decide_eq_false_2 by (by intros [? _]).
      by rewrite IH.
Qed.

Lemma content_lines_crlf_witness :
  content_lines
    (concat ((λ c, if bool_decide (c = LF) then [CR; LF] else [c])
             <$> [97; 10; 98]%N))
  = content_lines [97; 10; 98]%N.
Proof.
  apply (content_lines_crlf [97; 10; 98]%N).
  intros H. repeat (apply elem_of_cons in H as [[=] | H]).
  by apply elem_of_nil in H.
Defined.

(** ** More on the merge *)

Lemma map_each_Raise {A B : Type} (f : A → result B) (l : list A) (e : exn) :
  map_each f l = Raise e → ∃ x, x ∈ l ∧ f x = Raise e.
Proof.
  induction l as [|x l IH]; simpl; [done|].
  destruct (f x) as [y|e'] eqn:Hx; simpl.
  - destruct (map_each f l) as [ys|e'']; simpl; [done|].
    intros [= ->]. destruct IH as (x' & Hx' & He); [done|].
    exists x'. split; [by right | done].
  - intros [= ->]. exists x. split; [left | done].
Qed.

Lemma for_each_Raise {A S : Type} (f : S → A → result S) (l : list A)
  (s : S) (e : exn) :
  for_each f l s = Raise e → ∃ s' x, x ∈ l ∧ f s' x = Raise e.
Proof.
  revert s. induction l as [|x l IH]; intros s; simpl; [done|].
  destruct (f s x) as [s1|e'] eqn:Hx; simpl.
  - intros (s' & x' & Hx' & He)%IH. exists s', x'. split; [by right | done].
  - intros [= ->]. exists s, x. split; [left | done].
Qed.

Lemma dict_getitem_Raise `{Countable K} {V : Type} (d : gmap K V) k e :
  dict_getitem d k = Raise e ↔ e = KeyError ∧ d !! k = None.
Proof.
  unfold dict_getitem. destruct (d !! k); split; try done.
  - by intros [_ ?].
  - by intros [= <-].
  - by intros [-> _].
Qed.

(** X12. For a catalog document of the schema, an object whose [parts],
    when present, is a list of objects with integer and text values:
    [merge_with_existing] returns only when every new part and every part
    of the catalog has a [category], and when a new part or a part of the
    catalog has none it raises [KeyError]. *)
Theorem merge_raises_KeyError (new_parts : list part) (existing : catalog) :
  ((∃ out, merge_with_existing new_parts (Some existing) = Ok out) →
   Forall (λ p, is_Some (p !! k_category))
          (new_parts ++ default [] (cat_parts existing))) ∧
  ((∃ p, p ∈ new_parts ++ default [] (cat_parts existing) ∧
         p !! k_category = None) →
   merge_with_existing new_parts (Some existing) = Raise KeyError).
Proof.
  assert (match merge_with_existing new_parts (Some existing) with
          | Ok _ => Forall (λ p, is_Some (p !! k_category))
                      (new_parts ++ default [] (cat_parts existing))
          | Raise e => e = KeyError
          end) as Hcases.
  { destruct (merge_with_existing new_parts (Some existing))
      as [out|e] eqn:Hm.
    - apply merge_with_existing_Some in Hm as (Hnew & Hex & _).
      by apply Forall_app.
    - unfold merge_with_existing in Hm.
      destruct (map_each _ new_parts) as [cats|e'] eqn:Hcats; simpl in Hm.
      + apply for_each_Raise in Hm as (merged & p & Hp & Hraise).
        destruct (dict_getitem p k_category) as [c|e'] eqn:Hc;
          simpl in Hraise.
        { by case_bool_decide. }
        injection Hraise as ->. by apply dict_getitem_Raise in Hc as [-> _].
      + injection Hm as ->.
        by apply map_each_Raise in Hcats
          as (p & Hp & [-> Hc]%dict_getitem_Raise). }
  split.
  - intros [out Hout]. by rewrite Hout in Hcases.
  - intros (p & Hp & Hnone).
    destruct (merge_with_existing new_parts (Some existing)) as [out|e];
      [|by subst e].
    rewrite Forall_forall in Hcases. destruct (Hcases p Hp) as [c Hc].
    congruence.
Qed.

Lemma merge_raises_KeyError_witness :
  merge_with_existing [part_jakobs] (Some (Catalog (Some [∅])))
  = Raise KeyError.
Proof.
  apply (merge_raises_KeyError [part_jakobs] (Catalog (Some [∅]))).
  exists ∅. split; [|done].
  apply elem_of_app. right. simpl. left.
Defined.

Lemma kept_by_empty (p : part) :
  kept_by ∅ p ↔ is_Some (p !! k_category).
Proof.
  unfold kept_by. split.
  - intros (c & Hc & _). by exists c.
  - intros [c Hc]. exists c. split; [done | apply not_elem_of_empty].
Qed.

(** X13. With no new parts the merge returns the parts of the catalog as
    they are, and with a catalog that has no [parts] entry it returns the
    new parts as they are, provided the parts have a [category]. *)
Theorem merge_with_nothing (parts : list part) :
  Forall (λ p, is_Some (p !! k_category)) parts →
  merge_with_existing [] (Some (Catalog (Some parts))) = Ok parts ∧
  merge_with_existing parts (Some (Catalog None)) = Ok parts.
Proof.
  intros Hparts. split; apply merge_with_existing_Some; simpl.
  - split_and!; [done | done |]. symmetry.
    induction Hparts as [|p ps Hp _ IH]; [done|].
    rewrite filter_cons_True by (by apply kept_by_empty). by f_equal.
  - split_and!; [done | done |]. by rewrite filter_nil, app_nil_r.
Qed.

Lemma merge_with_nothing_witness :
  merge_with_existing [] (Some (Catalog (Some [part_jakobs; part_no_dot])))
  = Ok [part_jakobs; part_no_dot] ∧
  merge_with_existing [part_jakobs; part_no_dot] (Some (Catalog None))
  = Ok [part_jakobs; part_no_dot].
Proof.
  apply (merge_with_nothing [part_jakobs; part_no_dot]).
  apply Forall_cons. split; [exists (VInt 3); by vm_compute|].
  apply Forall_singleton. exists (VInt 12). by vm_compute.
Defined.

(** X14. The merge loses no category: the categories of its output are
    those of the new parts together with those of the existing catalog. *)
Theorem merge_categories (new_parts : list part)
  (existing_path : option catalog) (out : list part) :
  merge_with_existing new_parts existing_path = Ok out →
  categories_of out
  = categories_of new_parts ∪ categories_of (existing_parts existing_path).
Proof.
  intros Hm. rewrite (merge_output_list _ _ _ Hm).
  apply set_eq. intros c.
  rewrite elem_of_union, !categories_of_elem.
  setoid_rewrite elem_of_app. setoid_rewrite list_elem_of_filter. split.
  - intros (q & [Hq | [_ Hq]] & Hc); [left | right]; by exists q.
  - intros [(q & Hq & Hc) | (q & Hq & Hc)].
    + exists q. split; [by left | done].
    + destruct (decide (c ∈ categories_of new_parts)) as [Hin | Hout].
      * apply categories_of_elem in Hin as (q' & Hq' & Hc').
        exists q'. split; [by left | done].
      * exists q. split; [|done]. right. split; [|done]. by exists c.
Qed.

Lemma merge_categories_witness :
  categories_of
    [part_jakobs; old_part 4 2 (py "TED_Grip.x") (py "Tediore Pistol")]
  = categories_of [part_jakobs]
    ∪ categories_of (existing_parts (Some catalog_3_4)).
Proof.
  apply (merge_categories [part_jakobs] (Some catalog_3_4)).
  vm_compute. reflexivity.
Defined.

(** ** More on the sort *)

Lemma key_lt_neq (a b : Z * Z) : key_lt a b = true → a ≠ b.
Proof. unfold key_lt. destruct a, b; simpl. intros H [= -> ->]. lia. Qed.

Lemma key_of_inj (p : part) (a b : Z * Z) : key_of p a → key_of p b → a = b.
Proof.
  destruct a, b. unfold key_of. simpl. intros [H1 H2] [H3 H4]. congruence.
Qed.

Lemma lex_le_trans (a b c : Z * Z) : lex_le a b → lex_le b c → lex_le a c.
Proof. unfold lex_le. lia. Qed.

Section StableSortMore.
Context {A : Type}.
Implicit Types (x : (Z * Z) * A) (l : list ((Z * Z) * A)).

Lemma insert_by_key_filter_key (a : Z * Z) x l :
  filter (λ y, y.1 = a) (insert_by_key x l) = filter (λ y, y.1 = a) (x :: l).
Proof.
  induction l as [|y l IH]; [done|]. cbn [insert_by_key].
  destruct (key_lt y.1 x.1) eqn:Hlt; [|done].
  apply key_lt_neq in Hlt.
  rewrite (filter_cons _ y), IH, !(filter_cons _ x), (filter_cons _ y).
  destruct (decide (x.1 = a)), (decide (y.1 = a)); try done. congruence.
Qed.

(** Elements of equal key keep their order. *)
Lemma stable_sort_stable (a : Z * Z) l :
  filter (λ y, y.1 = a) (stable_sort l) = filter (λ y, y.1 = a) l.
Proof.
  induction l as [|x l IH]; [done|]. cbn [stable_sort foldr].
  fold (stable_sort l).
  by rewrite insert_by_key_filter_key, !(filter_cons _ x), IH.
Qed.

Lemma insert_by_key_front x l :
  Forall (λ y, lex_le x.1 y.1) l → insert_by_key x l = x :: l.
Proof.
  destruct l as [|y l]; [done|]. intros [Hy _]%Forall_cons.
  cbn [insert_by_key]. destruct (key_lt y.1 x.1) eqn:Hlt; [|done].
  destruct x as [[x1 x2] x'], y as [[y1 y2] y'].
  unfold key_lt, lex_le in *. simpl in *. lia.
Qed.

Lemma by_key_StronglySorted l : Sorted by_key l → StronglySorted by_key l.
Proof.
  apply Sorted_StronglySorted. intros x y z. apply lex_le_trans.
Qed.

(** Sorting a sorted list changes nothing. *)
Lemma stable_sort_sorted l : Sorted by_key l → stable_sort l = l.
Proof.
  intros Hl%by_key_StronglySorted.
  induction Hl as [|x l Hl IH Hx]; [done|].
  cbn [stable_sort foldr]. fold (stable_sort l). rewrite IH.
  by apply insert_by_key_front.
Qed.

Lemma stable_sort_app l1 l2 :
  stable_sort (l1 ++ stable_sort l2) = stable_sort (l1 ++ l2).
Proof.
  unfold stable_sort at 1 3. rewrite !foldr_app.
  fold (stable_sort (stable_sort l2)). fold (stable_sort l2).
  by rewrite (stable_sort_sorted _ (stable_sort_Sorted l2)).
Qed.

(** A filter commutes with the sort. *)
Lemma insert_by_key_filter (Q : (Z * Z) * A → Prop) `{!∀ y, Decision (Q y)}
  x l :
  StronglySorted by_key l →
  filter Q (insert_by_key x l)
  = if decide (Q x) then insert_by_key x (filter Q l) else filter Q l.
Proof.
  induction 1 as [|y l Hl IH Hy]; cbn [insert_by_key].
  - rewrite filter_cons, filter_nil. by destruct (decide (Q x)).
  - destruct (key_lt y.1 x.1) eqn:Hlt.
    + rewrite !(filter_cons _ y), IH.
      destruct (decide (Q x)), (decide (Q y)); try done.
      cbn [insert_by_key]. by rewrite Hlt.
    + rewrite (filter_cons _ x). destruct (decide (Q x)); [|done].
      symmetry. apply insert_by_key_front.
      apply key_lt_false in Hlt.
      apply Forall_forall. intros z [_ Hz]%list_elem_of_filter.
      apply elem_of_cons in Hz as [-> | Hz]; [done|].
      rewrite Forall_forall in Hy.
      eapply lex_le_trans; [exact Hlt | by apply Hy].
Qed.

Lemma stable_sort_filter (Q : (Z * Z) * A → Prop) `{!∀ y, Decision (Q y)} l :
  filter Q (stable_sort l) = stable_sort (filter Q l).
Proof.
  induction l as [|x l IH]; [done|]. cbn [stable_sort foldr].
  fold (stable_sort l).
  rewrite insert_by_key_filter
    by apply by_key_StronglySorted, stable_sort_Sorted.
  rewrite (filter_cons _ x). destruct (decide (Q x)); [|done].
  cbn [stable_sort foldr]. fold (stable_sort (filter Q l)). by rewrite IH.
Qed.
End StableSortMore.

(** A map that leaves the keys alone commutes with the sort. *)
Lemma stable_sort_fmap {A B : Type} (f : A → B) (l : list ((Z * Z) * A)) :
  stable_sort (prod_map id f <$> l) = prod_map id f <$> stable_sort l.
Proof.
  induction l as [|x l IH]; [done|]. rewrite fmap_cons.
  cbn [stable_sort foldr]. fold (stable_sort (prod_map id f <$> l)).
  fold (stable_sort l). rewrite IH. generalize (stable_sort l). clear.
  intros l. induction l as [|y l IH]; [done|].
  rewrite fmap_cons. cbn [insert_by_key].
  destruct x as [kx x], y as [ky y]. simpl.
  destruct (key_lt ky kx); [|done]. by rewrite fmap_cons, <- IH.
Qed.

(** Parts with their integer keys. *)
Lemma keyed_parts (parts : list part) :
  Forall (λ p, ∃ a, key_of p a) parts →
  ∃ L : list ((Z * Z) * part),
    L.*2 = parts ∧ Forall (λ kp, key_of kp.2 kp.1) L.
Proof.
  induction 1 as [|p ps [a Ha] _ (L & <- & HL)].
  - by exists [].
  - exists ((a, p) :: L). split; [done|]. by constructor.
Qed.

Lemma sort_parts_keyed (L : list ((Z * Z) * part)) :
  Forall (λ kp, key_of kp.2 kp.1) L →
  sort_parts (L.*2) = Ok ((stable_sort L).*2).
Proof.
  intros HL. apply sort_parts_Ok. exists (L.*1). split.
  - induction HL as [|[a p] L Hp _ IH]; constructor; done.
  - by rewrite zip_fst_snd.
Qed.

Lemma sort_parts_keys (parts sorted : list part) :
  sort_parts parts = Ok sorted → Forall (λ p, ∃ a, key_of p a) parts.
Proof.
  intros (ikeys & Hkeys & _)%sort_parts_Ok.
  induction Hkeys; constructor; eauto.
Qed.

Lemma filter_keyed (a : Z * Z) (L : list ((Z * Z) * part)) :
  Forall (λ kp, key_of kp.2 kp.1) L →
  filter (λ p, key_of p a) (L.*2) = (filter (λ kp, kp.1 = a) L).*2.
Proof.
  induction 1 as [|[k p] L Hp _ IH]; [done|]. simpl in Hp.
  rewrite fmap_cons, !filter_cons. simpl. rewrite IH.
  destruct (decide (key_of p a)) as [Ha|Ha], (decide (k = a)) as [Hk|Hk];
    try done.
  - destruct Hk. by eapply key_of_inj.
  - destruct Ha. by subst.
Qed.

(** X15. The sort is stable: the parts that share a [(category, index)]
    key stand in the sorted list in the order they had before, so that on
    a tie the new parts come before those of the catalog. *)
Theorem sort_parts_stable (parts sorted : list part) (a : Z * Z) :
  sort_parts parts = Ok sorted →
  filter (λ p, key_of p a) sorted = filter (λ p, key_of p a) parts.
Proof.
  intros Hsort.
  destruct (keyed_parts parts (sort_parts_keys _ _ Hsort)) as (L & <- & HL).
  rewrite (sort_parts_keyed L HL) in Hsort. injection Hsort as <-.
  rewrite !filter_keyed; [by rewrite stable_sort_stable | done |].
  by rewrite stable_sort_perm.
Qed.

(** X16. Sorting changes nothing in a list that is sorted already: the
    sort of a sorted list of parts is that list. *)
Theorem sort_parts_idempotent (parts sorted : list part) :
  sort_parts parts = Ok sorted → sort_parts sorted = Ok sorted.
Proof.
  intros Hsort.
  destruct (keyed_parts parts (sort_parts_keys _ _ Hsort)) as (L & <- & HL).
  rewrite (sort_parts_keyed L HL) in Hsort. injection Hsort as <-.
  rewrite sort_parts_keyed by (by rewrite stable_sort_perm).
  by rewrite (stable_sort_sorted _ (stable_sort_Sorted L)).
Qed.

Lemma sort_parts_stable_witness :
  filter (λ p, key_of p (3, 5))
    [part_jakobs; old_part 3 5 (py "JAK_Other.z") (py "Jakobs Pistol");
     part_no_dot]
  = filter (λ p, key_of p (3, 5))
      [part_no_dot; part_jakobs;
       old_part 3 5 (py "JAK_Other.z") (py "Jakobs Pistol")].
Proof.
  apply (sort_parts_stable
           [part_no_dot; part_jakobs;
            old_part 3 5 (py "JAK_Other.z") (py "Jakobs Pistol")]).
  vm_compute. reflexivity.
Defined.

Lemma sort_parts_idempotent_witness :
  sort_parts [part_jakobs; part_no_dot] = Ok [part_jakobs; part_no_dot].
Proof.
  apply (sort_parts_idempotent [part_no_dot; part_jakobs]).
  vm_compute. reflexivity.
Defined.

(** ** Running [main] on its own output *)

Lemma del_part_type_absent (p : part) :
  p !! k_part_type = None → del_part_type p = p.
Proof.
  intros Hp. unfold del_part_type.
  rewrite bool_decide_eq_false_2; [done|]. rewrite Hp. by intros [? ?].
Qed.

Lemma del_part_type_idem (p : part) :
  del_part_type (del_part_type p) = del_part_type p.
Proof. apply del_part_type_absent, del_part_type_part_type. Qed.

Lemma kept_by_del_part_type (C : gset value) (p : part) :
  kept_by C (del_part_type p) ↔ kept_by C p.
Proof.
  unfold kept_by. by rewrite del_part_type_other by (by vm_compute).
Qed.

Section Keyed.
Implicit Types (L : list ((Z * Z) * part)).

Lemma keyed_fmap_del L :
  del_part_type <$> L.*2 = (prod_map id del_part_type <$> L).*2.
Proof. rewrite <- !list_fmap_compose. by apply list_fmap_ext. Qed.

Lemma keyed_del L :
  Forall (λ kp, key_of kp.2 kp.1) L →
  Forall (λ kp, key_of kp.2 kp.1) (prod_map id del_part_type <$> L).
Proof.
  intros HL. apply Forall_fmap. eapply Forall_impl; [exact HL|].
  intros [a p]. simpl. apply del_part_type_key.
Qed.

Lemma keyed_filter (R : part → Prop) `{!∀ p, Decision (R p)} L :
  filter R (L.*2) = (filter (λ kp, R kp.2) L).*2.
Proof.
  induction L as [|[a p] L IH]; [done|].
  rewrite fmap_cons. destruct (decide (R p)) as [HR|HR].
  - rewrite filter_cons_True by done.
    rewrite (filter_cons_True _ (a, p)) by done. by rewrite fmap_cons, IH.
  - rewrite filter_cons_False by done.
    by rewrite (filter_cons_False _ (a, p)) by done.
Qed.

Lemma keyed_filter_del (C : gset value) L :
  filter (λ kp, kept_by C kp.2) (prod_map id del_part_type <$> L)
  = prod_map id del_part_type <$> filter (λ kp, kept_by C kp.2) L.
Proof.
  induction L as [|[a p] L IH]; [done|].
  rewrite fmap_cons. destruct (decide (kept_by C p)) as [H2|H2].
  - rewrite (filter_cons_True _ (a, p)) by done.
    rewrite filter_cons_True by (by apply kept_by_del_part_type).
    by rewrite fmap_cons, IH.
  - rewrite (filter_cons_False _ (a, p)) by done.
    rewrite filter_cons_False; [done|].
    simpl. by rewrite kept_by_del_part_type.
Qed.

Lemma keyed_del_idem L :
  prod_map id del_part_type <$> (prod_map id del_part_type <$> L)
  = prod_map id del_part_type <$> L.
Proof.
  rewrite <- list_fmap_compose. apply list_fmap_ext.
  intros i [a p] _. simpl. unfold prod_map. simpl.
  by rewrite del_part_type_idem.
Qed.
End Keyed.

(** X17. Run again on the same rows with its own document as the existing
    catalog, [main] writes the same document. *)
Theorem main_rerun (py_int : pystr → option Z) (rows : list (list pystr))
  (existing_path : option catalog) (doc : output) :
  main py_int rows existing_path = Ok doc →
  main py_int rows (Some (Catalog (Some (out_parts doc)))) = Ok doc.
Proof.
  intros (S1 & (P & M & Hparse & Hmerge & Hsort)%main_sorted_Ok & ->)%main_Ok.
  simpl out_parts.
  pose proof (merge_output_list _ _ _ Hmerge) as HM.
  set (C := categories_of P) in *.
  set (K := filter (kept_by C) (existing_parts existing_path)) in *.
  pose proof (sort_parts_keys _ _ Hsort) as Hkeys. rewrite HM in Hkeys.
  apply Forall_app in Hkeys as [HkP HkK].
  destruct (keyed_parts P HkP) as (LP & HLP & HP).
  destruct (keyed_parts K HkK) as (LK & HLK & HK).
  assert (S1 = (stable_sort (LP ++ LK)).*2) as ->.
  { rewrite HM, <- HLP, <- HLK, <- fmap_app in Hsort.
    rewrite sort_parts_keyed in Hsort by (by apply Forall_app).
    by injection Hsort as <-. }
  set (g := prod_map (A:=Z * Z) (A':=Z * Z) id del_part_type).
  assert (filter (λ kp, kept_by C kp.2) LP = []) as HfP.
  { apply filter_none. intros [a p] Hp (c & Hc & Hnot). simpl in Hc.
    apply Hnot, categories_of_elem. exists p. split; [|done].
    rewrite <- HLP. apply list_elem_of_fmap. by exists (a, p). }
  assert (filter (λ kp, kept_by C kp.2) LK = LK) as HfK.
  { assert (Forall (λ kp, kept_by C kp.2) LK) as Hall.
    { apply Forall_forall. intros [a p] Hp. simpl.
      assert (p ∈ K) as Hin.
      { rewrite <- HLK. apply list_elem_of_fmap. by exists (a, p). }
      by apply list_elem_of_filter in Hin as [? _]. }
    clear -Hall. induction Hall as [|kp L Hkp _ IH]; [done|].
    by rewrite filter_cons_True, IH. }
  assert (filter (kept_by C) (del_part_type <$> (stable_sort (LP ++ LK)).*2)
          = (g <$> stable_sort LK).*2) as Hkept.
  { rewrite keyed_fmap_del, keyed_filter, keyed_filter_del.
    rewrite stable_sort_filter, filter_app, HfP, HfK. done. }
  apply main_Ok.
  exists ((stable_sort (LP ++ (g <$> stable_sort LK))).*2). split.
  - apply main_sorted_Ok. exists P, (P ++ (g <$> stable_sort LK).*2).
    split_and!; [done | |].
    + apply merge_with_existing_Some. simpl. fold C.
      split_and!.
      * eapply Forall_impl; [exact HkP|]. intros p [a [Hc _]]. by eexists.
      * rewrite keyed_fmap_del. apply Forall_fmap.
        assert (Forall (λ kp, key_of kp.2 kp.1)
                  (g <$> stable_sort (LP ++ LK))) as Hall.
        { apply keyed_del. rewrite stable_sort_perm. by apply Forall_app. }
        eapply Forall_impl; [exact Hall|]. intros [a p] [Hc _]. by eexists.
      * by rewrite Hkept.
    + rewrite <- HLP at 1. rewrite <- fmap_app.
      apply sort_parts_keyed. apply Forall_app. split; [done|].
      apply keyed_del. by rewrite stable_sort_perm.
  - f_equal. rewrite !keyed_fmap_del. f_equal. unfold g.
    rewrite <- (stable_sort_fmap _ LK), stable_sort_app.
    rewrite <- !stable_sort_fmap. by rewrite !fmap_app, keyed_del_idem.
Qed.

Lemma main_rerun_witness :
  main int_ascii sample_rows (Some (Catalog (Some (out_parts sample_output))))
  = Ok sample_output.
Proof.
  apply (main_rerun int_ascii sample_rows (Some catalog_3_4)).
  vm_compute. reflexivity.
Defined.

(** ** What [main] writes *)

(** X18. The document [main] writes holds exactly the parts read from the
    spreadsheet followed by the parts of the existing catalog whose category
    the spreadsheet does not cover, each without [part_type], in some order:
    nothing is dropped and nothing is written twice. *)
Theorem main_output_parts (py_int : pystr → option Z)
  (rows : list (list pystr)) (existing_path : option catalog) (doc : output) :
  main py_int rows existing_path = Ok doc →
  ∃ parsed,
    parse_spreadsheet py_int rows = Ok parsed ∧
    out_parts doc ≡ₚ
      del_part_type <$>
        (parsed ++ filter (kept_by (categories_of parsed))
                          (existing_parts existing_path)).
Proof.
  intros (S1 & (P & M & Hparse & Hmerge & Hsort)%main_sorted_Ok & ->)%main_Ok.
  exists P. split; [done|]. simpl.
  rewrite <- (merge_output_list _ _ _ Hmerge).
  by rewrite (sort_parts_perm _ _ Hsort).
Qed.

Lemma main_output_parts_witness :
  ∃ parsed,
    parse_spreadsheet int_ascii sample_rows = Ok parsed ∧
    out_parts sample_output ≡ₚ
      del_part_type <$>
        (parsed ++ filter (kept_by (categories_of parsed))
                          (existing_parts (Some catalog_3_4))).
Proof.
  apply (main_output_parts int_ascii sample_rows (Some catalog_3_4)).
  vm_compute. reflexivity.
Defined.

(** ** The statistics of [main] *)

Lemma category_counts_loop (parts : list part) (m0 m : gmap value nat) :
  for_each (λ categories p,
              cat ← dict_getitem p k_category;
              Ok (<[cat := (default 0 (categories !! cat) + 1)%nat]> categories))
           parts m0 = Ok m →
  dom m = dom m0 ∪ categories_of parts ∧
  (∀ c, default 0%nat (m !! c)
        = (default 0 (m0 !! c)
           + length (filter (λ p, p !! k_category = Some c) parts))%nat) ∧
  map_fold (λ _ n acc, n + acc)%nat 0%nat m
  = (map_fold (λ _ n acc, n + acc)%nat 0%nat m0 + length parts)%nat.
Proof.
  revert m0. induction parts as [|p l IH]; intros m0.
  - intros [= <-]. split_and!.
    + unfold categories_of. simpl. by rewrite (right_id_L ∅ (∪)).
    + intros c. rewrite filter_nil. simpl. lia.
    + simpl. lia.
  - cbn [for_each].
    intros (m1 & (cat & Hcat%dict_getitem_Ok & [= <-])%bind_Ok & Hl)%bind_Ok.
    destruct (IH _ Hl) as (Hdom & Hcount & Hsum). split_and!.
    + rewrite Hdom, dom_insert_L. unfold categories_of.
      cbn [omap list_omap]. rewrite Hcat. cbn [list_to_set].
      apply set_eq. intros x. rewrite !elem_of_union. tauto.
    + intros c. rewrite Hcount. destruct (decide (c = cat)) as [->|Hne].
      * rewrite lookup_insert_eq, filter_cons_True by done.
        simpl. lia.
      * rewrite lookup_insert_ne by done.
        rewrite filter_cons_False; [done|]. rewrite Hcat. congruence.
    + rewrite Hsum. cbn [length].
      assert (∀ (m' : gmap value nat) j1 j2 z1 z2 y,
                j1 ≠ j2 → m' !! j1 = Some z1 → m' !! j2 = Some z2 →
                (z1 + (z2 + y) = z2 + (z1 + y))%nat) as Hcomm.
      { intros. lia. }
      destruct (m0 !! cat) as [n|] eqn:Hn; simpl.
      * rewrite <- (insert_delete_eq m0).
        rewrite (map_fold_insert_L _ _ cat);
          [|by apply Hcomm | by rewrite lookup_delete_eq].
        rewrite (map_fold_delete_L _ _ cat n m0); [lia| by apply Hcomm |done].
      * rewrite (map_fold_insert_L _ _ cat); [lia | by apply Hcomm | done].
Qed.

(** X19. The statistics of [main]: the table built from a list of parts has
    one entry for every category that occurs, each entry counts the parts of
    that category, and the counts add up to the number of parts. *)
Theorem category_counts_spec (parts : list part) (categories : gmap value nat) :
  category_counts parts = Ok categories →
  dom categories = categories_of parts ∧
  (∀ c, default 0%nat (categories !! c)
        = length (filter (λ p, p !! k_category = Some c) parts)) ∧
  map_fold (λ _ n acc, n + acc)%nat 0%nat categories = length parts.
Proof.
  intros (Hdom & Hcount & Hsum)%category_counts_loop. split_and!.
  - rewrite Hdom, dom_empty_L. by rewrite (left_id_L ∅ (∪)).
  - intros c. rewrite Hcount, lookup_empty. done.
  - rewrite Hsum, map_fold_empty. done.
Qed.

Lemma category_counts_spec_witness :
  dom (<[VInt 3 := 2%nat]> (<[VInt 4 := 1%nat]> (∅ : gmap value nat)))
  = categories_of [part_jakobs; old_part 4 1 (py "TED_A.b") (py "Tediore Pistol");
                   part_jakobs] ∧
  (∀ c, default 0%nat
          (<[VInt 3 := 2%nat]> (<[VInt 4 := 1%nat]> (∅ : gmap value nat)) !! c)
        = length (filter (λ p, p !! k_category = Some c)
                    [part_jakobs;
                     old_part 4 1 (py "TED_A.b") (py "Tediore Pistol");
                     part_jakobs])) ∧
  map_fold (λ _ n acc, n + acc)%nat 0%nat
    (<[VInt 3 := 2%nat]> (<[VInt 4 := 1%nat]> (∅ : gmap value nat)))
  = length [part_jakobs; old_part 4 1 (py "TED_A.b") (py "Tediore Pistol");
            part_jakobs].
Proof.
  apply (category_counts_spec
           [part_jakobs; old_part 4 1 (py "TED_A.b") (py "Tediore Pistol");
            part_jakobs]).
  vm_compute. reflexivity.
Defined.

Lemma category_counts_total (parts : list part) (m0 : gmap value nat) :
  Forall (λ p, is_Some (p !! k_category)) parts →
  ∃ m, for_each (λ categories p,
              cat ← dict_getitem p k_category;
              Ok (<[cat := (default 0 (categories !! cat) + 1)%nat]> categories))
           parts m0 = Ok m.
Proof.
  intros Hall. revert m0. induction Hall as [|p l [c Hc] _ IH]; intros m0.
  - by eexists.
  - destruct (IH (<[c := (default 0 (m0 !! c) + 1)%nat]> m0)) as [m Hm].
    exists m. cbn [for_each]. apply bind_Ok. eexists. split; [|exact Hm].
    apply bind_Ok. exists c. split; [by apply dict_getitem_Ok | done].
Qed.

(** X20. After a run that wrote a document the statistics loop of [main]
    does not fail: every part written carries a [category]. *)
Theorem main_stats (py_int : pystr → option Z) (rows : list (list pystr))
  (existing_path : option catalog) (doc : output) :
  main py_int rows existing_path = Ok doc →
  ∃ categories, category_counts (out_parts doc) = Ok categories.
Proof.
  intros (S1 & (P & M & Hparse & Hmerge & Hsort)%main_sorted_Ok & ->)%main_Ok.
  simpl. apply category_counts_total.
  pose proof (sort_parts_keys _ _ Hsort) as Hkeys.
  rewrite <- (sort_parts_perm _ _ Hsort) in Hkeys.
  apply Forall_fmap. eapply Forall_impl; [exact Hkeys|].
  intros p [a [Hc _]%del_part_type_key]. simpl. by eexists.
Qed.

Lemma main_stats_witness :
  ∃ categories, category_counts (out_parts sample_output) = Ok categories.
Proof.
  apply (main_stats int_ascii sample_rows (Some catalog_3_4)).
  vm_compute. reflexivity.
Defined.

(** ** The order and the totals of the cross-reference report *)

Lemma str_le_total (a b : pystr) : str_le a b = true ∨ str_le b a = true.
Proof.
  revert b. induction a as [|c a IH]; intros [|d b]; simpl; auto.
  rewrite !orb_true_iff, !andb_true_iff, !N.ltb_lt, !N.eqb_eq.
  destruct (IH b), (N.lt_trichotomy c d) as [?|[?|?]]; auto.
Qed.

Lemma str_le_trans (a b c : pystr) :
  str_le a b = true → str_le b c = true → str_le a c = true.
Proof.
  revert b c. induction a as [|x a IH]; intros [|y b] [|z c]; simpl; try done.
  rewrite !orb_true_iff, !andb_true_iff, !N.ltb_lt, !N.eqb_eq.
  intros [Hxy | [-> Hab]] [Hyz | [-> Hbc]].
  - left. lia.
  - by left.
  - by left.
  - right. split; [done|]. by apply (IH b).
Qed.

Lemma sorted_ascending (xs : gset pystr) :
  StronglySorted str_le_rel (sorted xs) ∧ NoDup (sorted xs).
Proof.
  assert (Total str_le_rel) as Htotal by (intros a b; apply str_le_total).
  assert (Transitive str_le_rel) as Htrans
    by (intros a b c; apply str_le_trans).
  unfold sorted. split.
  - by apply StronglySorted_merge_sort.
  - rewrite merge_sort_Permutation. apply NoDup_elements.
Qed.

Section ReportMore.
Variable spreadsheet_parts : gmap pystr (list ss_part).
Variable our_parts : gmap pystr (list pystr).

Lemma analyze_loop_shape (prefixes : list pystr)
  (acc res : list (pystr * coverage) * totals) :
  for_each (λ acc prefix,
              c ← compare_prefix spreadsheet_parts our_parts prefix;
              Ok (acc.1 ++ [(prefix, c)],
                  Totals (total_matched acc.2 + size (matched c))
                         (total_missing acc.2 + size (missing c))
                         (total_extra acc.2 + size (extra c))))
           prefixes acc = Ok res →
  res.1.*1 = acc.1.*1 ++ prefixes ∧
  (total_matched res.2 + sum_list_with (λ e, size (matched e.2)) acc.1
   = total_matched acc.2 + sum_list_with (λ e, size (matched e.2)) res.1)%nat ∧
  (total_missing res.2 + sum_list_with (λ e, size (missing e.2)) acc.1
   = total_missing acc.2 + sum_list_with (λ e, size (missing e.2)) res.1)%nat ∧
  (total_extra res.2 + sum_list_with (λ e, size (extra e.2)) acc.1
   = total_extra acc.2 + sum_list_with (λ e, size (extra e.2)) res.1)%nat.
Proof.
  revert acc. induction prefixes as [|x l IH]; intros acc.
  - intros [= <-]. rewrite app_nil_r. split_and!; [done | lia..].
  - cbn [for_each].
    intros (acc' & (c & Hc & [= <-])%bind_Ok & Hl)%bind_Ok.
    destruct (IH _ Hl) as (H1 & H2 & H3 & H4). clear IH Hl.
    cbn [fst snd total_matched total_missing total_extra] in H1, H2, H3, H4.
    rewrite !sum_list_with_app in *. rewrite fmap_app, <- app_assoc in H1.
    cbn [sum_list_with fst snd fmap list_fmap app] in *.
    split_and!; [done | lia..].
Qed.
End ReportMore.

(** X21. The prefix coverage of the report: a prefix of either grouping is
    counted once, as common or as present on one side only. *)
Theorem prefix_coverage (spreadsheet_parts : gmap pystr (list ss_part))
  (our_parts : gmap pystr (list pystr)) :
  (size (common spreadsheet_parts our_parts)
   + size (spreadsheet_only spreadsheet_parts our_parts)
   = size (dom spreadsheet_parts))%nat ∧
  (size (common spreadsheet_parts our_parts)
   + size (our_only spreadsheet_parts our_parts)
   = size (dom our_parts))%nat ∧
  (∀ x, x ∈ spreadsheet_only spreadsheet_parts our_parts →
        x ∉ our_only spreadsheet_parts our_parts) ∧
  (∀ x, x ∈ common spreadsheet_parts our_parts →
        (x ∉ spreadsheet_only spreadsheet_parts our_parts) ∧
        (x ∉ our_only spreadsheet_parts our_parts)).
Proof.
  unfold common, spreadsheet_only, our_only. split_and!.
  - apply size_split.
  - rewrite (comm_L (∩)). apply size_split.
  - intros x [Hx _]%elem_of_difference [_ Hno]%elem_of_difference. by apply Hno.
  - intros x [Hs Ho]%elem_of_intersection.
    split; intros [_ Hno]%elem_of_difference; by apply Hno.
Qed.

(** X22. The per-category analysis always returns; it reports the common
    prefixes, each once, in ascending order of their text, and its three
    totals are the sums of the sizes of the sets reported. *)
Theorem analyze_patterns_report (spreadsheet_parts : gmap pystr (list ss_part))
  (our_parts : gmap pystr (list pystr)) :
  ∃ report tot,
    analyze_patterns spreadsheet_parts our_parts = Ok (report, tot) ∧
    StronglySorted str_le_rel report.*1 ∧
    NoDup report.*1 ∧
    (∀ x, x ∈ report.*1 ↔ x ∈ dom spreadsheet_parts ∧ x ∈ dom our_parts) ∧
    total_matched tot = sum_list_with (λ e, size (matched e.2)) report ∧
    total_missing tot = sum_list_with (λ e, size (missing e.2)) report ∧
    total_extra tot = sum_list_with (λ e, size (extra e.2)) report.
Proof.
  destruct (analyze_loop spreadsheet_parts our_parts
              (sorted (common spreadsheet_parts our_parts))
              ([], Totals 0 0 0)) as ([report tot] & Hreport & _).
  { intros x Hx%sorted_elem. by apply compare_prefix_common. }
  exists report, tot. split; [exact Hreport|].
  apply analyze_loop_shape in Hreport as (Hnames & Hm & Hmi & He).
  cbn [fst snd fmap list_fmap app sum_list_with
       total_matched total_missing total_extra] in Hnames, Hm, Hmi, He.
  destruct (sorted_ascending (common spreadsheet_parts our_parts))
    as [Hsorted Hnodup].
  rewrite Hnames. split_and!; [done | done | | lia..].
  intros x. rewrite sorted_elem. unfold common.
  apply elem_of_intersection.
Qed.

(** ** The index tables *)

Lemma ss_indexed_from (l : list ss_part) (m0 : gmap pystr Z) (name : pystr) :
  foldl (λ m p, <[ss_name p := ss_id p]> m) m0 l !! name
  = match last (filter (λ p, ss_name p = name) l) with
    | Some p => Some (ss_id p)
    | None => m0 !! name
    end.
Proof.
  revert m0. induction l as [|p l IH]; intros m0; [done|].
  cbn [foldl]. rewrite IH. destruct (decide (ss_name p = name)) as [Hp|Hp].
  - rewrite filter_cons_True by done. rewrite last_cons.
    destruct (last (filter _ l)); [done|]. by rewrite <- Hp, lookup_insert_eq.
  - rewrite filter_cons_False by done.
    destruct (last (filter _ l)); [done|]. by rewrite lookup_insert_ne.
Qed.

Lemma ss_indexed_of_lookup (l : list ss_part) (name : pystr) :
  ss_indexed_of l !! name
  = ss_id <$> last (filter (λ p, ss_name p = name) l).
Proof.
  unfold ss_indexed_of. rewrite ss_indexed_from, lookup_empty.
  by destruct (last _).
Qed.

Lemma index_rows_Ok (spreadsheet_parts : gmap pystr (list ss_part))
  (our_parts : gmap pystr (list pystr)) (prefix : pystr)
  (l : list ss_part) (our_list : list pystr) :
  spreadsheet_parts !! prefix = Some l →
  our_parts !! prefix = Some our_list →
  index_rows spreadsheet_parts our_parts prefix
  = Ok (imap (λ i part, (i, ss_indexed_of l !! part, part))
             (take 10 our_list)).
Proof.
  intros Hl Hour. unfold index_rows, dict_getitem. by rewrite Hl, Hour.
Qed.

(** X23. The index table of a prefix of both groupings has a row for each
    of the first ten local names, numbered from 0 in the order of the local
    list; the spreadsheet index shown is that of the last spreadsheet record
    of that name, and is missing when there is no such record. *)
Theorem index_rows_spec (spreadsheet_parts : gmap pystr (list ss_part))
  (our_parts : gmap pystr (list pystr)) (prefix : pystr)
  (l : list ss_part) (our_list : list pystr) :
  spreadsheet_parts !! prefix = Some l →
  our_parts !! prefix = Some our_list →
  ∃ rows,
    index_rows spreadsheet_parts our_parts prefix = Ok rows ∧
    length rows = min 10 (length our_list) ∧
    ∀ i row, rows !! i = Some row →
      ∃ name, our_list !! i = Some name ∧
        row = (i, ss_id <$> last (filter (λ p, ss_name p = name) l), name).
Proof.
  intros Hl Hour. rewrite (index_rows_Ok _ _ _ _ _ Hl Hour).
  eexists. split; [done|]. split.
  - by rewrite length_imap, length_take.
  - intros i row. rewrite list_lookup_imap.
    destruct (take 10 our_list !! i) as [name|] eqn:Hi; [|done].
    intros [= <-]. apply lookup_take_Some in Hi as [Hi _].
    exists name. split; [done|]. by rewrite ss_indexed_of_lookup.
Qed.

Lemma index_rows_spec_witness :
  ∃ rows,
    index_rows sample_repeated_parts sample_our_parts (py "JAK") = Ok rows ∧
    length rows = min 10 (length [py "JAK_A"; py "JAK_C"]) ∧
    ∀ i row, rows !! i = Some row →
      ∃ name, [py "JAK_A"; py "JAK_C"] !! i = Some name ∧
        row = (i, ss_id <$> last (filter (λ p, ss_name p = name)
                 [ SsPart 1 (py "Jakobs") (py "Pistol") (py "Barrel") (py "JAK_A");
                   SsPart 2 (py "Jakobs") (py "Pistol") (py "Grip") (py "JAK_B");
                   SsPart 7 (py "Jakobs") (py "Pistol") (py "Barrel") (py "JAK_A") ]),
               name).
Proof.
  apply (index_rows_spec sample_repeated_parts sample_our_parts (py "JAK"));
    vm_compute; reflexivity.
Defined.


(** ** Rows only one of the readers takes *)

Section ReaderEdges.
Variable py_int : pystr → option Z.

Lemma parse_row_blank h c0 c1 c2 c3 c4 rest :
  strip c0 = [] ∨ strip c0 = s_Manufacturer →
  c0 ≠ s_Manufacturer →
  parse_row py_int h (c0 :: c1 :: c2 :: c3 :: c4 :: rest) = Ok Continue.
Proof.
  intros Hblank Hc0. unfold parse_row. row_cbn.
  repeat (try row_done; row_case); try reflexivity.
  all: destruct Hblank; row_done.
Qed.

Lemma parse_row_rest h c0 c1 c2 c3 c4 rest :
  c0 ≠ s_Manufacturer →
  parse_row py_int h (c0 :: c1 :: c2 :: c3 :: c4 :: rest)
  = parse_row py_int h [c0; c1; c2; c3; c4].
Proof.
  intros Hc0. unfold parse_row, int_of. row_cbn.
  repeat (try row_done; row_case); try reflexivity.
Qed.

Lemma load_row_rest h c0 c1 c2 c3 c4 rest :
  c0 ≠ s_Manufacturer →
  load_row py_int h (c0 :: c1 :: c2 :: c3 :: c4 :: rest)
  = load_row py_int h [c0; c1; c2; c3; c4].
Proof.
  intros Hc0. unfold load_row, int_of. row_cbn.
  repeat (try row_done; row_case); try reflexivity.
Qed.
End ReaderEdges.

(** X25. Under a header, a row whose manufacturer cell is not empty but
    trims to nothing or to [Manufacturer] is passed over by
    [parse_spreadsheet], while [load_spreadsheet_parts] files it like any
    other row with an integer id and a dotted name. *)
Theorem blank_manufacturer_row (py_int : pystr → option Z)
  (h : list pystr) (c0 c1 c2 c3 c4 : pystr) (rest : list pystr) (z : Z) :
  c0 ≠ [] → c0 ≠ s_Manufacturer →
  strip c0 = [] ∨ strip c0 = s_Manufacturer →
  py_int (strip c2) = Some z →
  dot ∈ strip c4 →
  parse_row py_int (Some h) (c0 :: c1 :: c2 :: c3 :: c4 :: rest)
  = Ok Continue ∧
  load_row py_int (Some h) (c0 :: c1 :: c2 :: c3 :: c4 :: rest)
  = Ok (Emit (before_dot (strip c4),
              SsPart z (strip c0) (strip c1) (strip c3) (strip c4))).
Proof.
  intros Hc0 Hc0' Hblank Hint Hdot. split.
  - by apply parse_row_blank.
  - apply load_row_Emit. exists c0, c1, c2, c3, c4, rest, z.
    split_and!; try done.
    + intros Hs. rewrite Hs in Hdot. by apply elem_of_nil in Hdot.
    + by apply contains_elem_of.
Qed.

Lemma blank_manufacturer_row_witness :
  parse_row int_ascii (Some row_header) row_blank_manufacturer = Ok Continue ∧
  load_row int_ascii (Some row_header) row_blank_manufacturer
  = Ok (Emit (before_dot (strip (py "JAK_PS.part_barrel_01")),
              SsPart 5 (strip (py " ")) (strip (py "Pistol"))
                     (strip (py "Barrel"))
                     (strip (py "JAK_PS.part_barrel_01")))).
Proof.
  apply (blank_manufacturer_row int_ascii row_header (py " ") (py "Pistol")
           (py "5") (py "Barrel") (py "JAK_PS.part_barrel_01") [] 5).
  - by vm_compute.
  - by vm_compute.
  - left. vm_compute. reflexivity.
  - vm_compute. reflexivity.
  - apply (bool_decide_unpack _). vm_compute. reflexivity.
Defined.

(** X26. Neither reader looks at a cell after the fifth: a row that is not
    a header row is treated like its first five cells. *)
Theorem cells_after_fifth (py_int : pystr → option Z)
  (h : option (list pystr)) (c0 c1 c2 c3 c4 : pystr) (rest : list pystr) :
  c0 ≠ s_Manufacturer →
  parse_row py_int h (c0 :: c1 :: c2 :: c3 :: c4 :: rest)
  = parse_row py_int h [c0; c1; c2; c3; c4] ∧
  load_row py_int h (c0 :: c1 :: c2 :: c3 :: c4 :: rest)
  = load_row py_int h [c0; c1; c2; c3; c4].
Proof.
  intros Hc0. split; [by apply parse_row_rest | by apply load_row_rest].
Qed.

Lemma cells_after_fifth_witness :
  parse_row int_ascii (Some row_header) (row_jakobs ++ [py "note"])
  = parse_row int_ascii (Some row_header) row_jakobs ∧
  load_row int_ascii (Some row_header) (row_jakobs ++ [py "note"])
  = load_row int_ascii (Some row_header) row_jakobs.
Proof.
  apply (cells_after_fifth int_ascii (Some row_header)).
  by vm_compute.
Defined.

(** X27. A run whose existing catalog, if any, holds only parts with an
    integer [category] and an integer [index] writes a document, with
    version 2 and the two fixed texts. *)
Theorem main_writes (py_int : pystr → option Z) (rows : list (list pystr))
  (existing_path : option catalog) :
  Forall (λ p, ∃ a, key_of p a) (existing_parts existing_path) →
  ∃ doc, main py_int rows existing_path = Ok doc ∧
    version doc = 2 ∧ source doc = OUTPUT_SOURCE ∧ note doc = OUTPUT_NOTE.
Proof.
  intros [doc Hdoc]%(main_returns py_int rows). exists doc.
  split; [done|]. by apply main_Ok in Hdoc as (? & _ & ->).
Qed.

Lemma main_writes_witness :
  ∃ doc, main int_ascii sample_rows (Some catalog_3_4) = Ok doc ∧
    version doc = 2 ∧ source doc = OUTPUT_SOURCE ∧ note doc = OUTPUT_NOTE.
Proof.
  apply (main_writes int_ascii sample_rows (Some catalog_3_4)).
  repeat apply Forall_cons_2; [| |apply Forall_nil_2].
  - exists (4, 2). split; vm_compute; reflexivity.
  - exists (3, 1). split; vm_compute; reflexivity.
Defined.
